(** * grpc-web-cli: the request-file interpreter

  A shallow embedding of the document parser (internal/file/parser.go),
  the path evaluator (internal/client/jsonpath.go), the template
  substitutor (internal/template/template.go), the assertion evaluator
  (internal/assert/assert.go) and the run loop (cmd/run.go), with the
  properties of the specification stated and proved over it.

  Go strings are byte strings; they are modelled by [string], one
  [ascii] per byte.  Go maps are [gmap]s. *)

From Stdlib Require Import ZArith NArith Ascii String List Lia Bool.
From Stdlib Require Import Numbers.DecimalString.
From Stdlib Require Numbers.DecimalNat.
From stdpp Require Import gmap strings list fin_maps.
Import ListNotations.

Local Open Scope string_scope.
Local Open Scope list_scope.

(** Go's (value, error) results. *)
Inductive result (E A : Type) : Type :=
| Ok (a : A)
| Err (e : E).
Arguments Ok {E A} a.
Arguments Err {E A} e.

(** ** The functions of Go's [strings] package that the program calls *)
Module GoStrings.

(** [len(s)]. *)
Definition len (s : string) : nat := String.length s.

(** [s[n:]]. *)
Fixpoint drop (n : nat) (s : string) : string :=
  match n, s with
  | O, _ => s
  | S n', String _ s' => drop n' s'
  | S _, EmptyString => EmptyString
  end.

(** [s[:n]]. *)
Fixpoint take (n : nat) (s : string) : string :=
  match n, s with
  | O, _ => EmptyString
  | S n', String c s' => String c (take n' s')
  | S _, EmptyString => EmptyString
  end.

(** [strings.HasPrefix(s, prefix)]. *)
Fixpoint HasPrefix (s prefix : string) {struct prefix} : bool :=
  match prefix, s with
  | EmptyString, _ => true
  | String p prefix', String c s' => Ascii.eqb c p && HasPrefix s' prefix'
  | String _ _, EmptyString => false
  end.

(** [strings.TrimPrefix(s, prefix)]. *)
Definition TrimPrefix (s prefix : string) : string :=
  if HasPrefix s prefix then drop (len prefix) s else s.

(** [strings.Index(s, substr)]: the byte offset of the first occurrence;
    [None] stands for Go's -1. *)
Fixpoint Index (s substr : string) : option nat :=
  if HasPrefix s substr then Some O
  else match s with
       | EmptyString => None
       | String _ s' => option_map S (Index s' substr)
       end.

(** [s[lo:hi]]. *)
Definition slice (lo hi : nat) (s : string) : string := drop lo (take hi s).

(** [strings.SplitN(s, sep, 2)] for a non-empty [sep]. *)
Definition SplitN2 (s sep : string) : list string :=
  match Index s sep with
  | None => [s]
  | Some i => [take i s; drop (i + len sep) s]
  end.

(** [strings.Contains(s, substr)]. *)
Definition Contains (s substr : string) : bool :=
  match Index s substr with Some _ => true | None => false end.

(** [strings.Join(elems, sep)]. *)
Fixpoint Join (elems : list string) (sep : string) : string :=
  match elems with
  | [] => EmptyString
  | [e] => e
  | e :: rest => e +:+ sep +:+ Join rest sep
  end.

(** One step of [strings.Replace(s, old, new, -1)] for a non-empty [old]:
    copy up to the next occurrence, write [new], go on after it.  Each
    round consumes at least [len old] bytes, so [len s] rounds suffice. *)
Fixpoint replaceLoop (rounds : nat) (s old new : string) : string :=
  match rounds with
  | O => s
  | S rounds' =>
      match Index s old with
      | None => s
      | Some j => take j s +:+ new +:+ replaceLoop rounds' (drop (j + len old) s) old new
      end
  end.

(** With an empty [old], Go writes [new] before every rune and at the
    end; bytewise here, which agrees on ASCII text.  [Substitute] never
    passes an empty pattern. *)
Fixpoint intersperse (s new : string) : string :=
  match s with
  | EmptyString => new
  | String c s' => new +:+ String c (intersperse s' new)
  end.

(** [strings.ReplaceAll(s, old, new)]. *)
Definition ReplaceAll (s old new : string) : string :=
  match old with
  | EmptyString => intersperse s new
  | String _ _ => replaceLoop (len s) s old new
  end.

(** The white space of [unicode.IsSpace], as the bytes it has in UTF-8:
    the width in bytes of the white-space character [s] starts with, or 0.
    A lead byte never occurs inside another character, so Go's decoder
    sees a white-space character exactly where these bytes are. *)
Definition isASCIISpace (c : ascii) : bool :=
  let n := N_of_ascii c in
  ((9 <=? n) && (n <=? 13) || (n =? 32))%N.

Definition spaceWidth (s : string) : nat :=
  match s with
  | EmptyString => 0
  | String c s1 =>
      if isASCIISpace c then 1
      else
        let b0 := N_of_ascii c in
        match s1 with
        | EmptyString => 0
        | String c1 s2 =>
            let b1 := N_of_ascii c1 in
            if (b0 =? 194)%N then
              (* U+0085, U+00A0 *)
              if ((b1 =? 133) || (b1 =? 160))%N then 2 else 0
            else
              match s2 with
              | EmptyString => 0
              | String c2 _ =>
                  let b2 := N_of_ascii c2 in
                  if (* U+1680 *)
                     ((b0 =? 225) && (b1 =? 154) && (b2 =? 128)
                     (* U+2000 .. U+200A, U+2028, U+2029, U+202F *)
                     || (b0 =? 226) && (b1 =? 128) &&
                        ((128 <=? b2) && (b2 <=? 138) || (b2 =? 168) || (b2 =? 169) || (b2 =? 175))
                     (* U+205F *)
                     || (b0 =? 226) && (b1 =? 129) && (b2 =? 159)
                     (* U+3000 *)
                     || (b0 =? 227) && (b1 =? 128) && (b2 =? 128))%N
                  then 3 else 0
              end
        end
  end.

(** The same, read from the end: [r] is the string reversed. *)
Definition spaceWidthRev (r : string) : nat :=
  match r with
  | EmptyString => 0
  | String c r1 =>
      if isASCIISpace c then 1
      else
        let b2 := N_of_ascii c in
        match r1 with
        | EmptyString => 0
        | String c1 r2 =>
            let b1 := N_of_ascii c1 in
            if ((b1 =? 194) && ((b2 =? 133) || (b2 =? 160)))%N then 2
            else
              match r2 with
              | EmptyString => 0
              | String c0 _ =>
                  let b0 := N_of_ascii c0 in
                  if ((b0 =? 225) && (b1 =? 154) && (b2 =? 128)
                     || (b0 =? 226) && (b1 =? 128) &&
                        ((128 <=? b2) && (b2 <=? 138) || (b2 =? 168) || (b2 =? 169) || (b2 =? 175))
                     || (b0 =? 226) && (b1 =? 129) && (b2 =? 159)
                     || (b0 =? 227) && (b1 =? 128) && (b2 =? 128))%N
                  then 3 else 0
              end
        end
  end.

(** Drop white-space characters from the front, as recognised by
    [width]; [skip] counts the bytes of the current one still to drop. *)
Fixpoint trimFront (width : string -> nat) (skip : nat) (s : string) : string :=
  match s with
  | EmptyString => EmptyString
  | String _ s' =>
      match skip with
      | S k => trimFront width k s'
      | O => match width s with
             | O => s
             | S w => trimFront width w s'
             end
      end
  end.

Fixpoint revOnto (s acc : string) : string :=
  match s with
  | EmptyString => acc
  | String c s' => revOnto s' (String c acc)
  end.

Definition reverse (s : string) : string := revOnto s EmptyString.

(** [strings.TrimSpace(s)]. *)
Definition TrimSpace (s : string) : string :=
  reverse (trimFront spaceWidthRev 0 (reverse (trimFront spaceWidth 0 s))).

(** [strings.TrimSuffix(s, suffix)]. *)
Definition HasSuffix (s suffix : string) : bool := HasPrefix (reverse s) (reverse suffix).

Definition TrimSuffix (s suffix : string) : string :=
  if HasSuffix s suffix then take (len s - len suffix) s else s.

(** [strings.Fields(s)]: the maximal runs of bytes that are not white
    space.  [cur] is the field being read, if any. *)
Definition flush (cur : option string) : list string :=
  match cur with Some f => [f] | None => [] end.

Definition push (cur : option string) (c : ascii) : option string :=
  match cur with
  | Some f => Some (f +:+ String c EmptyString)
  | None => Some (String c EmptyString)
  end.

Fixpoint fieldsFrom (skip : nat) (cur : option string) (s : string) : list string :=
  match s with
  | EmptyString => flush cur
  | String c s' =>
      match skip with
      | S k => fieldsFrom k cur s'
      | O => match spaceWidth s with
             | O => fieldsFrom 0 (push cur c) s'
             | S w => flush cur ++ fieldsFrom w None s'
             end
      end
  end.

Definition Fields (s : string) : list string := fieldsFrom 0 None s.

(** [strings.ToLower(s)] on ASCII letters; bytes from 0x80 on are kept.
    Go also maps the letters beyond ASCII to their lower case and writes
    U+FFFD for bytes that are not UTF-8.  Two letters beyond ASCII become
    ASCII letters, U+0130 (i) and the Kelvin sign U+212A (k); every other
    character beyond ASCII stays beyond ASCII.  The only use, in
    [ParseProtocol], compares the result with names that have neither an
    i nor a k, so that the comparison comes out the same. *)
Definition lowerByte (c : ascii) : ascii :=
  let n := N_of_ascii c in
  if ((65 <=? n) && (n <=? 90))%N then ascii_of_N (n + 32) else c.

Fixpoint ToLower (s : string) : string :=
  match s with
  | EmptyString => EmptyString
  | String c s' => String (lowerByte c) (ToLower s')
  end.

End GoStrings.
Import GoStrings.

(** ** internal/template/template.go *)
Module Template.

(** [fmt.Sprintf("{{%s}}", key)]. *)
Definition placeholder (key : string) : string := "{{" +:+ key +:+ "}}".

(** The body of the loop of [Substitute], and the loop over the entries
    in the order in which [range] visits them.  The values are the
    strings [%v] prints; the run loop stores strings only. *)
Definition substituteEntry (result : string) (entry : string * string) : string :=
  ReplaceAll result (placeholder (fst entry)) (snd entry).

Definition substituteEntries (input : string) (entries : list (string * string)) : string :=
  fold_left substituteEntry entries input.

(** [Substitute(input, variables)], given the order in which [range]
    visits a map. *)
Definition Substitute (rangeOrder : gmap string string -> list (string * string))
    (input : string) (variables : gmap string string) : string :=
  if decide (size variables = 0) then input
  else substituteEntries input (rangeOrder variables).

(** Go leaves that order unspecified: every order of the entries is a
    possible run of [Substitute]. *)
Definition SubstituteReturns (input : string) (variables : gmap string string)
    (output : string) : Prop :=
  exists entries, entries ≡ₚ map_to_list variables /\
                  output = substituteEntries input entries.

End Template.
Import Template.

(** ** internal/file/parser.go *)
Module File.

(** The double quote and the line feed, as one-byte strings. *)
Definition dquote : string := String "034"%char EmptyString.
Definition newline : string := String "010"%char EmptyString.

(** [Type] is reserved; the field is [Type_]. *)
Record Assertion : Type := mkAssertion {
  Type_ : string;
  Key : string;
  Operator : string;
  Value : string
}.

(** [Timeout] is a [time.Duration]: nanoseconds. *)
Record RequestFile : Type := mkRequestFile {
  Name : string;
  Address : string;
  Service : string;
  Method : string;
  Protocol : string;
  Timeout : Z;
  Headers : gmap string string;
  Body : string;
  Captures : gmap string string;
  Asserts : list Assertion
}.

Definition setName (v : string) (r : RequestFile) : RequestFile :=
  mkRequestFile v (Address r) (Service r) (Method r) (Protocol r) (Timeout r)
                (Headers r) (Body r) (Captures r) (Asserts r).
Definition setAddress (v : string) (r : RequestFile) : RequestFile :=
  mkRequestFile (Name r) v (Service r) (Method r) (Protocol r) (Timeout r)
                (Headers r) (Body r) (Captures r) (Asserts r).
Definition setService (v : string) (r : RequestFile) : RequestFile :=
  mkRequestFile (Name r) (Address r) v (Method r) (Protocol r) (Timeout r)
                (Headers r) (Body r) (Captures r) (Asserts r).
Definition setMethod (v : string) (r : RequestFile) : RequestFile :=
  mkRequestFile (Name r) (Address r) (Service r) v (Protocol r) (Timeout r)
                (Headers r) (Body r) (Captures r) (Asserts r).
Definition setProtocol (v : string) (r : RequestFile) : RequestFile :=
  mkRequestFile (Name r) (Address r) (Service r) (Method r) v (Timeout r)
                (Headers r) (Body r) (Captures r) (Asserts r).
Definition setTimeout (v : Z) (r : RequestFile) : RequestFile :=
  mkRequestFile (Name r) (Address r) (Service r) (Method r) (Protocol r) v
                (Headers r) (Body r) (Captures r) (Asserts r).
Definition setHeaders (v : gmap string string) (r : RequestFile) : RequestFile :=
  mkRequestFile (Name r) (Address r) (Service r) (Method r) (Protocol r) (Timeout r)
                v (Body r) (Captures r) (Asserts r).
Definition setBody (v : string) (r : RequestFile) : RequestFile :=
  mkRequestFile (Name r) (Address r) (Service r) (Method r) (Protocol r) (Timeout r)
                (Headers r) v (Captures r) (Asserts r).
Definition setCaptures (v : gmap string string) (r : RequestFile) : RequestFile :=
  mkRequestFile (Name r) (Address r) (Service r) (Method r) (Protocol r) (Timeout r)
                (Headers r) (Body r) v (Asserts r).
Definition setAsserts (v : list Assertion) (r : RequestFile) : RequestFile :=
  mkRequestFile (Name r) (Address r) (Service r) (Method r) (Protocol r) (Timeout r)
                (Headers r) (Body r) (Captures r) v.

(** [time.Second], in nanoseconds. *)
Definition Second : Z := 1000000000.

(** The record [parseContent] starts from. *)
Definition newRequest : RequestFile :=
  mkRequestFile EmptyString EmptyString EmptyString EmptyString
                "grpc-web" (30 * Second) ∅ EmptyString ∅ [].

(** The values of [currentSection]: the empty string, "Body", "Captures"
    and "Asserts". *)
Inductive section : Type := InHeader | InBody | InCaptures | InAsserts.

Definition section_eqb (a b : section) : bool :=
  match a, b with
  | InHeader, InHeader | InBody, InBody
  | InCaptures, InCaptures | InAsserts, InAsserts => true
  | _, _ => false
  end.

(** The variables of [parseContent]. *)
Record parser : Type := mkParser {
  req : RequestFile;
  currentSection : section;
  bodyLines : list string
}.

Definition setReq (f : RequestFile -> RequestFile) (st : parser) : parser :=
  mkParser (f (req st)) (currentSection st) (bodyLines st).
Definition setSection (sec : section) (st : parser) : parser :=
  mkParser (req st) sec (bodyLines st).

Inductive ParseError : Type :=
| InvalidTimeout (value cause : string)
| MissingAddress
| MissingService
| MissingMethod.

(** Steps 1 to 3 of an assertion line: the type up to the first space,
    the quoted key, the operator up to the next space; with them, what is
    left of the line for the value. *)
Definition assertHead (trimmed : string) : option (string * string * string * string) :=
  match Index trimmed " " with
  | None => None
  | Some firstSpace =>
      let aType := take firstSpace trimmed in
      let rest := TrimSpace (drop firstSpace trimmed) in
      if negb (HasPrefix rest dquote) then None
      else
        let rest := drop 1 rest in
        match Index rest dquote with
        | None => None
        | Some endQuote =>
            let key := take endQuote rest in
            let rest := TrimSpace (drop (endQuote + 1) rest) in
            match Index rest " " with
            | None => None
            | Some firstSpace =>
                let op := take firstSpace rest in
                let rest := TrimSpace (drop firstSpace rest) in
                Some (aType, key, op, rest)
            end
        end
  end.

(** Step 4: the value, quoted or raw. *)
Definition assertValue (rest : string) : string :=
  if HasPrefix rest dquote then
    let rest := drop 1 rest in
    match Index rest dquote with
    | Some endQuote => take endQuote rest
    | None => EmptyString
    end
  else rest.

(** The assertion a line of the Asserts block adds, if any. *)
Definition parseAssertion (trimmed : string) : option Assertion :=
  if (4 <=? length (Fields trimmed))%nat then
    match assertHead trimmed with
    | None => None
    | Some (aType, key, op, rest) => Some (mkAssertion aType key op (assertValue rest))
    end
  else None.

Section Parse.

(** [time.ParseDuration], of Go's library: nanoseconds, or the text of
    its error. *)
Variable ParseDuration : string -> result string Z.

(** The [key: value] pairs of the main section. *)
Definition parseField (key value : string) (r : RequestFile) : result ParseError RequestFile :=
  if String.eqb key "Service" then Ok (setService value r)
  else if String.eqb key "Method" then Ok (setMethod value r)
  else if String.eqb key "Protocol" then Ok (setProtocol value r)
  else if String.eqb key "Timeout" then
    match ParseDuration value with
    | Err cause => Err (InvalidTimeout value cause)
    | Ok duration => Ok (setTimeout duration r)
    end
  else Ok (setHeaders (<[key := value]> (Headers r)) r).

(** One round of the loop over the lines. *)
Definition parseLine (st : parser) (line : string) : result ParseError parser :=
  let trimmed := TrimSpace line in
  if section_eqb (currentSection st) InHeader && String.eqb trimmed EmptyString then Ok st
  else if HasPrefix trimmed "#" then
    if String.eqb (Name (req st)) EmptyString
    then Ok (setReq (setName (TrimSpace (TrimPrefix trimmed "#"))) st)
    else Ok st
  else if String.eqb trimmed "[Captures]" then Ok (setSection InCaptures st)
  else if String.eqb trimmed "[Asserts]" then Ok (setSection InAsserts st)
  else
    match currentSection st with
    | InCaptures =>
        if String.eqb trimmed EmptyString then Ok st
        else
          match SplitN2 line ":" with
          | [k; v] =>
              Ok (setReq (fun r => setCaptures (<[TrimSpace k := TrimSpace v]> (Captures r)) r) st)
          | _ => Ok st
          end
    | InAsserts =>
        if String.eqb trimmed EmptyString then Ok st
        else
          match parseAssertion trimmed with
          | Some a => Ok (setReq (fun r => setAsserts (Asserts r ++ [a]) r) st)
          | None => Ok st
          end
    | sec =>
        let sec := if section_eqb sec InHeader && HasPrefix trimmed "{" then InBody else sec in
        if section_eqb sec InBody then
          Ok (mkParser (req st) InBody (bodyLines st ++ [line]))
        else if HasPrefix line "GRPC " then
          Ok (setReq (setAddress (TrimSpace (TrimPrefix line "GRPC"))) st)
        else
          match Index line ":" with
          | Some colonIdx =>
              let key := TrimSpace (take colonIdx line) in
              let value := TrimSpace (drop (colonIdx + 1) line) in
              match parseField key value (req st) with
              | Err e => Err e
              | Ok r => Ok (mkParser r sec (bodyLines st))
              end
          | None => Ok st
          end
    end.

(** The loop: stops at the first error. *)
Fixpoint parseLines (st : parser) (lines : list string) : result ParseError parser :=
  match lines with
  | [] => Ok st
  | line :: rest =>
      match parseLine st line with
      | Err e => Err e
      | Ok st' => parseLines st' rest
      end
  end.

(** After the loop: the body, then the required fields. *)
Definition finalBody (st : parser) : string :=
  match bodyLines st with
  | [] => "{}"
  | _ :: _ => Join (bodyLines st) newline
  end.

Definition finish (st : parser) : result ParseError RequestFile :=
  let r := setBody (finalBody st) (req st) in
  if String.eqb (Address r) EmptyString then Err MissingAddress
  else if String.eqb (Service r) EmptyString then Err MissingService
  else if String.eqb (Method r) EmptyString then Err MissingMethod
  else Ok r.

Definition initial : parser := mkParser newRequest InHeader [].

(** [parseContent(lines, requestNum)]. *)
Definition parseContent (lines : list string) (requestNum : nat) : result ParseError RequestFile :=
  match parseLines initial lines with
  | Err e => Err e
  | Ok st => finish st
  end.

(** What [os.Open] and the [bufio.Scanner] on the file give
    [ParseMultiple]: the lines that [Scan] yields one after the other,
    and what [scanner.Err()] returns once [Scan] has stopped, the text of
    an error or nothing.  The scanner stops with an error when a read
    fails and when a line does not fit its buffer of 64 KiB; the lines
    before that have been yielded. *)
Record Scan : Type := mkScan {
  scanned : list string;
  scanErr : option string
}.

(** The file at a path: the text of the error of [os.Open], or the scan
    of its content. *)
Variable Open : string -> result string Scan.

Inductive FileError : Type :=
| OpenFailed (cause : string)
| ReadFailed (cause : string)
| NoRequests
| InRequest (number : nat) (e : ParseError).

Definition isSeparator (line : string) : bool := String.eqb (TrimSpace line) "---".

(** One round of the scanning loop over [sections] and [currentSection]. *)
Definition scanLine (acc : list (list string) * list string) (line : string)
  : list (list string) * list string :=
  let '(sections, current) := acc in
  if isSeparator line then
    match current with
    | [] => (sections, current)
    | _ :: _ => (sections ++ [current], [])
    end
  else (sections, current ++ [line]).

Definition scanSections (lines : list string) : list (list string) :=
  let '(sections, current) := fold_left scanLine lines ([], []) in
  match current with
  | [] => sections
  | _ :: _ => sections ++ [current]
  end.

(** The loop over the sections; [i] is the index of the first of them. *)
Fixpoint parseSections (i : nat) (sections : list (list string))
  : result FileError (list RequestFile) :=
  match sections with
  | [] => Ok []
  | sec :: rest =>
      match parseContent sec (i + 1) with
      | Err e => Err (InRequest (i + 1) e)
      | Ok r =>
          match parseSections (S i) rest with
          | Err e => Err e
          | Ok requests => Ok (r :: requests)
          end
      end
  end.

(** [ParseMultiple].  The scanning loop only builds the sections, so that
    the test of [scanner.Err()], which the code makes between the loop and
    the last section, is made first here. *)
Definition ParseMultiple (path : string) : result FileError (list RequestFile) :=
  match Open path with
  | Err cause => Err (OpenFailed cause)
  | Ok file =>
      match scanErr file with
      | Some cause => Err (ReadFailed cause)
      | None =>
          let sections := scanSections (scanned file) in
          match sections with
          | [] => Err NoRequests
          | _ :: _ => parseSections 0 sections
          end
      end
  end.

(** [Error()] of the errors above; [Quote] is [strconv.Quote], for [%q]. *)
Definition decimal (n : nat) : string := NilZero.string_of_uint (Nat.to_uint n).

Definition ParseError_text (Quote : string -> string) (e : ParseError) : string :=
  match e with
  | InvalidTimeout value cause => "invalid timeout duration " +:+ Quote value +:+ ": " +:+ cause
  | MissingAddress => "missing required 'GRPC <address>' line"
  | MissingService => "missing required 'Service:' field"
  | MissingMethod => "missing required 'Method:' field"
  end.

Definition FileError_text (Quote : string -> string) (e : FileError) : string :=
  match e with
  | OpenFailed cause => "failed to open request file: " +:+ cause
  | ReadFailed cause => "error reading file: " +:+ cause
  | NoRequests => "no requests found in file"
  | InRequest number e => "request " +:+ decimal number +:+ ": " +:+ ParseError_text Quote e
  end.

End Parse.

(** The text between the separator lines, as the specification reads it:
    every separator ends a segment and starts the next, so that a document
    with [n] separators has [n + 1] segments, empty ones included. *)
Fixpoint segments (lines : list string) : list (list string) :=
  match lines with
  | [] => [[]]
  | line :: rest =>
      if isSeparator line then [] :: segments rest
      else match segments rest with
           | seg :: segs => (line :: seg) :: segs
           | [] => [[line]]
           end
  end.

Definition nonEmpty (seg : list string) : bool :=
  match seg with [] => false | _ :: _ => true end.

(** The key a [key: value] line of the main section has. *)
Definition fieldKey (line : string) : option string :=
  match Index line ":" with
  | Some colonIdx => Some (TrimSpace (take colonIdx line))
  | None => None
  end.

(** The lines the loop tests for before it looks at the section: comments,
    and the two block markers with the section each of them starts. *)
Definition isComment (line : string) : bool := HasPrefix (TrimSpace line) "#".

Definition isMarker (line : string) : bool :=
  String.eqb (TrimSpace line) "[Captures]" || String.eqb (TrimSpace line) "[Asserts]".

Definition markerSection (line : string) : section :=
  if String.eqb (TrimSpace line) "[Captures]" then InCaptures else InAsserts.

(** The sections after the body. *)
Definition afterBody (sec : section) : Prop := sec = InCaptures \/ sec = InAsserts.

(** For the invariant of the scanning loop: the segments of the lines
    still to come, with the lines of [current] put before the first of
    them; and what the loop returns from its two variables. *)
Definition prependTo (current : list string) (segs : list (list string)) : list (list string) :=
  match segs with
  | [] => [current]
  | seg :: segs' => (current ++ seg) :: segs'
  end.

Definition closeSections (acc : list (list string) * list string) : list (list string) :=
  match snd acc with
  | [] => fst acc
  | _ :: _ => fst acc ++ [snd acc]
  end.

(** A [time.ParseDuration] that knows one duration, for the examples. *)
Definition parseDuration5s (s : string) : result string Z :=
  if String.eqb s "5s" then Ok (5 * Second)%Z else Err "time: invalid duration".

(** A file system for the examples: every path opens, and the scan
    yields the given lines without an error. *)
Definition fileOf (lines : list string) (path : string) : result string Scan :=
  Ok (mkScan lines None).

End File.
Import File.

(** ** internal/client/jsonpath.go *)
Module Client.

(** What [json.Unmarshal] stores in an [interface{}]: nil, bool, float64
    (its 64 bits), string, [[]interface{}] and [map[string]interface{}]. *)
#[warnings="-register-all"]
Inductive JSON : Type :=
| JNull
| JBool (b : bool)
| JNumber (bits : Z)
| JString (s : string)
| JArray (elems : list JSON)
| JObject (fields : gmap string JSON).

(** [strconv.Atoi(s)] on a 64-bit platform: an optional sign, decimal
    digits, the value within [int]; [None] stands for its error. *)
Definition digitValue (c : ascii) : option Z :=
  let n := N_of_ascii c in
  if ((48 <=? n) && (n <=? 57))%N then Some (Z.of_N n - 48)%Z else None.

Fixpoint parseDigits (acc : Z) (s : string) : option Z :=
  match s with
  | EmptyString => Some acc
  | String c s' =>
      match digitValue c with
      | Some d => parseDigits (10 * acc + d)%Z s'
      | None => None
      end
  end.

Definition Atoi (s : string) : option Z :=
  let signed :=
    match s with
    | String c digits =>
        if Ascii.eqb c "-" then (true, digits)
        else if Ascii.eqb c "+" then (false, digits)
        else (false, s)
    | EmptyString => (false, s)
    end in
  match snd signed with
  | EmptyString => None
  | String _ _ =>
      match parseDigits 0 (snd signed) with
      | None => None
      | Some n =>
          let v := (if fst signed then - n else n)%Z in
          if ((- 2 ^ 63 <=? v) && (v <? 2 ^ 63))%Z then Some v else None
      end
  end.

(** The errors of [evaluatePath]; [Exhausted] is never returned (see
    [evaluatePath] below). *)
Inductive PathError : Type :=
| Unclosed (path : string)
| InvalidIndex (idxStr : string)
| ExpectedArray (data : JSON)
| OutOfBounds (idx : Z)
| ExpectedObject (key : string) (data : JSON)
| KeyNotFound (key : string)
| Exhausted.

(** The optional root selector. *)
Definition stripRoot (path : string) : string :=
  if HasPrefix path "$." then TrimPrefix path "$."
  else if HasPrefix path "$" then TrimPrefix path "$"
  else path.

(** The body of [evaluatePath], with [self] for its recursive calls. *)
Definition evaluateStep (self : JSON -> string -> result PathError JSON)
    (data : JSON) (path : string) : result PathError JSON :=
  let path := stripRoot path in
  if String.eqb path EmptyString then Ok data
  else if HasPrefix path "[" then
    match Index path "]" with
    | None => Err (Unclosed path)
    | Some endIdx =>
        let idxStr := slice 1 endIdx path in
        match Atoi idxStr with
        | None => Err (InvalidIndex idxStr)
        | Some idx =>
            match data with
            | JArray elems =>
                if ((idx <? 0) || (Z.of_nat (length elems) <=? idx))%Z
                then Err (OutOfBounds idx)
                else
                  let remainingPath := TrimPrefix (drop (endIdx + 1) path) "." in
                  self (nth (Z.to_nat idx) elems JNull) remainingPath
            | _ => Err (ExpectedArray data)
            end
        end
    end
  else
    let parts := SplitN2 path "." in
    let key := hd EmptyString parts in
    match Index key "[" with
    | Some bracketIdx =>
        let realKey := take bracketIdx key in
        let arrayPart := drop bracketIdx key in
        let remainingPath :=
          match parts with
          | _ :: rest :: _ => arrayPart +:+ "." +:+ rest
          | _ => arrayPart
          end in
        match data with
        | JObject obj =>
            match obj !! realKey with
            | None => Err (KeyNotFound realKey)
            | Some val => self val remainingPath
            end
        | _ => Err (ExpectedObject realKey data)
        end
    | None =>
        match data with
        | JObject obj =>
            match obj !! key with
            | None => Err (KeyNotFound key)
            | Some val =>
                match parts with
                | _ :: rest :: _ => self val rest
                | _ => Ok val
                end
            end
        | _ => Err (ExpectedObject key data)
        end
    end.

(** Every recursive call is on a shorter path, so [len path + 1] levels
    are enough. *)
Fixpoint evaluateDepth (depth : nat) (data : JSON) (path : string) : result PathError JSON :=
  match depth with
  | O => Err Exhausted
  | S depth' => evaluateStep (evaluateDepth depth') data path
  end.

Definition evaluatePath (data : JSON) (path : string) : result PathError JSON :=
  evaluateDepth (S (len path)) data path.

(** [%T] and [%d]. *)
Definition typeName (data : JSON) : string :=
  match data with
  | JNull => "<nil>"
  | JBool _ => "bool"
  | JNumber _ => "float64"
  | JString _ => "string"
  | JArray _ => "[]interface {}"
  | JObject _ => "map[string]interface {}"
  end.

Definition decimalZ (z : Z) : string := NilZero.string_of_int (Z.to_int z).

Inductive EvalError : Type :=
| InvalidJSON (cause : string)
| PathFailed (e : PathError).

Section Evaluate.

(** Of Go's library: [json.Unmarshal] into an [interface{}] (the value, or
    the text of its error), the text of the error [strconv.Atoi] returns
    for an input, and [%v] of a float64 and of an array or a map. *)
Variable Unmarshal : string -> result string JSON.
Variable AtoiError : string -> string.
Variable FormatFloat : Z -> string.
Variable FormatComposite : JSON -> string.

Definition PathError_text (e : PathError) : string :=
  match e with
  | Unclosed path => "unclosed array index in path: " +:+ path
  | InvalidIndex idxStr => "invalid array index '" +:+ idxStr +:+ "': " +:+ AtoiError idxStr
  | ExpectedArray data => "expected array but got " +:+ typeName data
  | OutOfBounds idx => "array index out of bounds: " +:+ decimalZ idx
  | ExpectedObject key data =>
      "expected object for key '" +:+ key +:+ "' but got " +:+ typeName data
  | KeyNotFound key => "key '" +:+ key +:+ "' not found"
  | Exhausted => EmptyString
  end.

Definition EvalError_text (e : EvalError) : string :=
  match e with
  | InvalidJSON cause => "invalid JSON response: " +:+ cause
  | PathFailed e => PathError_text e
  end.

(** [fmt.Sprintf("%v", result)]. *)
Definition Sprint (result : JSON) : string :=
  match result with
  | JNull => "<nil>"
  | JBool true => "true"
  | JBool false => "false"
  | JNumber bits => FormatFloat bits
  | JString s => s
  | JArray _ | JObject _ => FormatComposite result
  end.

Definition EvaluateJSONPath (jsonStr path : string) : result EvalError string :=
  match Unmarshal jsonStr with
  | Err cause => Err (InvalidJSON cause)
  | Ok data =>
      match evaluatePath data path with
      | Err e => Err (PathFailed e)
      | Ok result => Ok (Sprint result)
      end
  end.

End Evaluate.

(** Part of the document of the tests of the repository: two users and
    two permissions.  The ids are the float64 values 1 and 2. *)
Definition sampleUsers : JSON :=
  JObject (<["users" := JArray [JObject (<["id" := JNumber 4607182418800017408]>
                                           {["name" := JString "Bob"]});
                                JObject (<["id" := JNumber 4611686018427387904]>
                                           {["name" := JString "Charlie"]})]]>
           (<["permissions" := JArray [JString "read"; JString "write"]]> ∅)).

End Client.
Import Client.

(** ** internal/assert/assert.go *)
Module Assert.

Record Result : Type := mkResult {
  Pass : bool;
  Message : string
}.

Section Check.

Variable Unmarshal : string -> result string JSON.
Variable AtoiError : string -> string.
Variable FormatFloat : Z -> string.
Variable FormatComposite : JSON -> string.

(** The result of an operator that was applied: the message, with the
    actual value when the assertion does not hold. *)
Definition report (assert : Assertion) (val : string) (pass : bool) : Result :=
  let status := if pass then "PASS" else "FAIL" in
  let msg := status +:+ ": jsonpath " +:+ dquote +:+ Key assert +:+ dquote +:+ " "
             +:+ Operator assert +:+ " " +:+ dquote +:+ Value assert +:+ dquote in
  let msg := if pass then msg
             else msg +:+ " (actual: " +:+ dquote +:+ val +:+ dquote +:+ ")" in
  mkResult pass msg.

(** [Check(assert, jsonOutput)]: the result and the error, [None] for nil. *)
Definition Check (assert : Assertion) (jsonOutput : string) : Result * option string :=
  if negb (String.eqb (Type_ assert) "jsonpath") then
    (mkResult true ("Warning: skipping unknown assertion type '" +:+ Type_ assert +:+ "'"), None)
  else
    match EvaluateJSONPath Unmarshal FormatFloat FormatComposite jsonOutput (Key assert) with
    | Err err =>
        (mkResult false ("failed to evaluate jsonpath '" +:+ Key assert +:+ "': "
                         +:+ EvalError_text AtoiError err), None)
    | Ok val =>
        if String.eqb (Operator assert) "==" then
          (report assert val (String.eqb val (Value assert)), None)
        else if String.eqb (Operator assert) "!=" then
          (report assert val (negb (String.eqb val (Value assert))), None)
        else if String.eqb (Operator assert) "contains" then
          (report assert val (Contains val (Value assert)), None)
        else
          (mkResult false ("unknown operator '" +:+ Operator assert +:+ "'"), None)
    end.

End Check.

End Assert.
Import Assert.

(** ** The client of internal/client: its protocols and its constructor *)
Module Grpc.

(** [client.Protocol] and [client.ParseProtocol]. *)
Inductive Protocol : Type := ProtocolGRPC | ProtocolGRPCWeb | ProtocolConnect.

Definition ParseProtocol (s : string) : option Protocol :=
  let lower := ToLower s in
  if String.eqb lower "grpc" then Some ProtocolGRPC
  else if String.eqb lower "grpc-web" then Some ProtocolGRPCWeb
  else if String.eqb lower "connect" then Some ProtocolConnect
  else None.

(** [client.Client] and [client.NewClient], without the HTTP client. *)
Record Client : Type := mkClient {
  address : string;
  prefix : string;
  protocol : Protocol;
  headers : gmap string string
}.

Definition NewClient (address prefix : string) (protocol : Protocol)
    (headers : gmap string string) : Client :=
  mkClient (TrimSuffix address "/") (TrimSuffix prefix "/") protocol headers.

End Grpc.

(** ** cmd/run.go *)
Module Run.

(** [parseAddressAndPrefix]: cut before the third slash. *)
Fixpoint thirdSlash (count : nat) (i : nat) (s : string) : option nat :=
  match s with
  | EmptyString => None
  | String c s' =>
      if Ascii.eqb c "/" then
        if Nat.eqb (S count) 3 then Some i else thirdSlash (S count) (S i) s'
      else thirdSlash count (S i) s'
  end.

Definition parseAddressAndPrefix (address : string) : string * string :=
  match thirdSlash 0 0 address with
  | Some i => (take i address, drop i address)
  | None => (address, EmptyString)
  end.

Inductive RunError : Type :=
| MethodNotFound (cause : string) (available : list string)
| InvalidProtocol (s : string)
| InvalidInput (cause : string)
| CallFailed (cause : string)
| FormatFailed (cause : string)
| AssertionsFailed.

Section Orchestrator.

(** The collaborators: the registry of the loaded protos, the codec, and
    the transport, which answers from the state of the world outside and
    may change it. *)
Variables MethodDesc ProtoMessage Response World : Type.
Variable FindMethod : string -> string -> result string MethodDesc.
Variable ListServices : list string.
Variable JSONToProto : string -> MethodDesc -> result string ProtoMessage.
Variable Call : World -> Grpc.Client -> Z -> MethodDesc -> ProtoMessage -> World * result string Response.
Variable ProtoToJSON : Response -> result string string.

Variable Unmarshal : string -> result string JSON.
Variable AtoiError : string -> string.
Variable FormatFloat : Z -> string.
Variable FormatComposite : JSON -> string.

(** The order in which [range] visits a map of strings. *)
Variable rangeOrder : gmap string string -> list (string * string).

(** What the loop works on: the variable store, the world, what has been
    printed, and the number of calls made through the transport. *)
Record state : Type := mkState {
  variables : gmap string string;
  world : World;
  printed : list string;
  calls : nat
}.

Definition print (text : string) (st : state) : state :=
  mkState (variables st) (world st) (printed st ++ [text]) (calls st).

Definition start (w : World) : state := mkState ∅ w [] 0.

(** Up to the response as JSON: substitution, resolution, the call. *)
Definition dispatch (i : nat) (reqFile : RequestFile) (st : state) : state * result RunError string :=
  let st := if (0 <? i)%nat then print (newline +:+ "---" +:+ newline) st else st in
  let vars := variables st in
  let reqAddress := Substitute rangeOrder (Address reqFile) vars in
  let reqBody := Substitute rangeOrder (Body reqFile) vars in
  let reqHeaders := (fun v => Substitute rangeOrder v vars) <$> Headers reqFile in
  let st := if negb (String.eqb (Name reqFile) EmptyString)
            then print ("# " +:+ Name reqFile +:+ newline) st
            else print ("# Request " +:+ decimal (i + 1) +:+ newline) st in
  let st := print ("# " +:+ Service reqFile +:+ "/" +:+ Method reqFile +:+ newline +:+ newline) st in
  match FindMethod (Service reqFile) (Method reqFile) with
  | Err cause => (st, Err (MethodNotFound cause ListServices))
  | Ok methodDesc =>
      match Grpc.ParseProtocol (File.Protocol reqFile) with
      | None => (st, Err (InvalidProtocol (File.Protocol reqFile)))
      | Some proto =>
          let '(address, prefix) := parseAddressAndPrefix reqAddress in
          let c := Grpc.NewClient address prefix proto reqHeaders in
          match JSONToProto reqBody methodDesc with
          | Err cause => (st, Err (InvalidInput cause))
          | Ok inputMsg =>
              let '(w, response) := Call (world st) c (Timeout reqFile) methodDesc inputMsg in
              let st := mkState (variables st) w (printed st) (S (calls st)) in
              match response with
              | Err cause => (st, Err (CallFailed cause))
              | Ok response =>
                  match ProtoToJSON response with
                  | Err cause => (st, Err (FormatFailed cause))
                  | Ok jsonOutput => (print (jsonOutput +:+ newline) st, Ok jsonOutput)
                  end
              end
          end
      end
  end.

(** The loop over the captures. *)
Definition captureOne (jsonOutput : string) (st : state) (entry : string * string) : state :=
  let '(varName, path) := entry in
  match EvaluateJSONPath Unmarshal FormatFloat FormatComposite jsonOutput path with
  | Err err =>
      print ("# Warning: failed to capture variable '" +:+ varName +:+ "' from path '"
             +:+ path +:+ "': " +:+ EvalError_text AtoiError err +:+ newline) st
  | Ok val =>
      print ("# " +:+ varName +:+ " = " +:+ val +:+ newline)
            (mkState (<[varName := val]> (variables st)) (world st) (printed st) (calls st))
  end.

Definition capture (reqFile : RequestFile) (jsonOutput : string) (st : state) : state :=
  if decide (size (Captures reqFile) = 0) then st
  else fold_left (captureOne jsonOutput) (rangeOrder (Captures reqFile))
                 (print (newline +:+ "# Captures:" +:+ newline) st).

(** The loop over the assertions: what it prints, and [allPassed]. *)
Definition checkOne (jsonOutput : string) (acc : state * bool) (a : Assertion) : state * bool :=
  let '(st, allPassed) := acc in
  match Check Unmarshal AtoiError FormatFloat FormatComposite a jsonOutput with
  | (_, Some err) => (print ("# ERROR: " +:+ err +:+ newline) st, false)
  | (res, None) =>
      (print ("# " +:+ Message res +:+ newline) st, if Pass res then allPassed else false)
  end.

Definition checkAll (reqFile : RequestFile) (jsonOutput : string) (st : state) : state * option RunError :=
  match Asserts reqFile with
  | [] => (st, None)
  | _ :: _ =>
      let '(st, allPassed) :=
        fold_left (checkOne jsonOutput) (Asserts reqFile)
                  (print (newline +:+ "# Asserts:" +:+ newline) st, true) in
      if allPassed then (st, None) else (st, Some AssertionsFailed)
  end.

(** One round of the loop over the requests. *)
Definition execute (i : nat) (reqFile : RequestFile) (st : state) : state * option RunError :=
  match dispatch i reqFile st with
  | (st, Err e) => (st, Some e)
  | (st, Ok jsonOutput) => checkAll reqFile jsonOutput (capture reqFile jsonOutput st)
  end.

(** The loop from the request of index [i] on. *)
Fixpoint runFrom (i : nat) (requests : list RequestFile) (st : state) : state * option RunError :=
  match requests with
  | [] => (st, None)
  | reqFile :: rest =>
      match execute i reqFile st with
      | (st, Some e) => (st, Some e)
      | (st, None) => runFrom (S i) rest st
      end
  end.

Definition run (requests : list RequestFile) (w : World) : state * option RunError :=
  runFrom 0 requests (start w).

(** The line the loop prints for an assertion. *)
Definition assertLine (jsonOutput : string) (a : Assertion) : string :=
  "# " +:+ Message (fst (Check Unmarshal AtoiError FormatFloat FormatComposite a jsonOutput))
  +:+ newline.

Definition passes (jsonOutput : string) (a : Assertion) : bool :=
  Pass (fst (Check Unmarshal AtoiError FormatFloat FormatComposite a jsonOutput)).

End Orchestrator.

Arguments mkState {World}.
Arguments variables {World}.
Arguments world {World}.
Arguments printed {World}.
Arguments calls {World}.
Arguments print {World}.
Arguments start {World}.
Arguments dispatch {MethodDesc ProtoMessage Response World}.
Arguments captureOne {World}.
Arguments capture {World}.
Arguments checkOne {World}.
Arguments checkAll {World}.
Arguments execute {MethodDesc ProtoMessage Response World}.
Arguments runFrom {MethodDesc ProtoMessage Response World}.
Arguments run {MethodDesc ProtoMessage Response World}.

(** For the examples: a registry that knows every method, a transport
    that counts its calls in the world and sends the request back, and a
    response that always decodes to an active status. *)
Definition activeStatus (_ : string) : result string JSON :=
  Ok (JObject {["status" := JString "active"]}).

Definition echoCall (w : nat) (_ : Grpc.Client) (_ : Z) (_ : unit) (msg : string)
  : nat * result string string := (S w, Ok msg).

Definition statusRequest (asserts : list Assertion) : RequestFile :=
  setAsserts asserts
    (setBody "{}" (setMethod "GetStatus" (setService "example.Status"
       (setAddress "http://localhost:8080/api" newRequest)))).

End Run.
Import Run.

(** ** Definitions for the further properties *)

(** The number of '/' bytes of a string. *)
Fixpoint countSlash (s : string) : nat :=
  match s with
  | EmptyString => 0
  | String c s' => (if Ascii.eqb c "/" then 1 else 0) + countSlash s'
  end.

(** [Parse] of internal/file/parser.go: the first request of
    [ParseMultiple]. *)
Definition Parse (ParseDuration : string -> result string Z)
    (Open : string -> result string Scan) (path : string)
  : result FileError RequestFile :=
  match ParseMultiple ParseDuration Open path with
  | Err e => Err e
  | Ok [] => Err NoRequests
  | Ok (r :: _) => Ok r
  end.

(** The text of a comment line, and the first text that is not empty
    among the comments of some lines. *)
Definition commentText (line : string) : string :=
  TrimSpace (TrimPrefix (TrimSpace line) "#").

Fixpoint firstCommentText (lines : list string) : string :=
  match lines with
  | [] => EmptyString
  | line :: rest =>
      if isComment line && negb (String.eqb (commentText line) EmptyString)
      then commentText line
      else firstCommentText rest
  end.

(** The keys of the main section that are fields of the request. *)
Definition reservedKeys : list string := ["Service"; "Method"; "Protocol"; "Timeout"].

(** The string of one byte. *)
Definition oneByte (d : ascii) : string := String d EmptyString.

(** A key of the dot notation: no '.', no '[', no '$' in front. *)
Definition plainKey (key : string) : Prop :=
  Index key "." = None /\ Index key "[" = None /\ HasPrefix key "$" = false.

(** Bytes of printable ASCII other than the space, and words made of them. *)
Definition graphic (c : ascii) : bool :=
  ((33 <=? N_of_ascii c) && (N_of_ascii c <=? 126))%N.

Fixpoint allGraphic (s : string) : bool :=
  match s with
  | EmptyString => true
  | String c s' => graphic c && allGraphic s'
  end.

Definition isWord (s : string) : bool :=
  negb (String.eqb s EmptyString) && allGraphic s.

(** The last byte of [s] is graphic. *)
Definition endsGraphic (s : string) : Prop :=
  exists a g, s = a +:+ oneByte g /\ graphic g = true.

(** ** internal/proto/parser.go: the registry *)
Module Proto.

(** What the registry reads of the descriptors of protoreflect: of a
    method its name and the full names of its input and output types, of a
    service its full name and its methods, of a file its services. *)
Record MethodDescriptor : Type := mkMethod {
  mName : string;
  mInput : string;
  mOutput : string
}.

Record ServiceDescriptor : Type := mkService {
  svcFullName : string;
  svcMethods : list MethodDescriptor
}.

Record FileDescriptor : Type := mkFile {
  fdServices : list ServiceDescriptor
}.

Record Registry : Type := mkRegistry {
  files : list FileDescriptor;
  services : gmap string ServiceDescriptor
}.

Definition NewRegistry : Registry := mkRegistry [] ∅.

(** The loop of [AddFile] that indexes the services. *)
Definition indexService (m : gmap string ServiceDescriptor) (svc : ServiceDescriptor)
  : gmap string ServiceDescriptor :=
  <[svcFullName svc := svc]> m.

Definition AddFile (fd : FileDescriptor) (r : Registry) : Registry :=
  mkRegistry (files r ++ [fd]) (fold_left indexService (fdServices fd) (services r)).

(** The end of [LoadProtos]: a new registry, with the compiled files added
    in their order. *)
Definition registryOf (fds : list FileDescriptor) : Registry :=
  fold_left (fun r fd => AddFile fd r) fds NewRegistry.

Inductive LookupError : Type :=
| ServiceNotFound (name : string)
| NoSuchMethod (methodName serviceName : string) (available : list string).

Definition FindService (r : Registry) (name : string) : result LookupError ServiceDescriptor :=
  match services r !! name with
  | None => Err (ServiceNotFound name)
  | Some svc => Ok svc
  end.

Definition FindMethod (r : Registry) (serviceName methodName : string)
  : result LookupError MethodDescriptor :=
  match FindService r serviceName with
  | Err e => Err e
  | Ok svc =>
      match List.find (fun m => String.eqb (mName m) methodName) (svcMethods svc) with
      | Some m => Ok m
      | None => Err (NoSuchMethod methodName serviceName (map mName (svcMethods svc)))
      end
  end.

Record MethodInfo : Type := mkMethodInfo {
  miName : string;
  miInputType : string;
  miOutputType : string
}.

Record ServiceInfo : Type := mkServiceInfo {
  siFullName : string;
  siMethods : list MethodInfo
}.

Definition methodInfo (m : MethodDescriptor) : MethodInfo :=
  mkMethodInfo (mName m) (mInput m) (mOutput m).

(** The body of the loop of [ListServices], for one entry of the map. *)
Definition serviceInfo (entry : string * ServiceDescriptor) : ServiceInfo :=
  mkServiceInfo (fst entry) (map methodInfo (svcMethods (snd entry))).

(** [ListServices], given the order in which [range] visits the map. *)
Definition ListServices
    (rangeOrder : gmap string ServiceDescriptor -> list (string * ServiceDescriptor))
    (r : Registry) : list ServiceInfo :=
  map serviceInfo (rangeOrder (services r)).

(** Every order of the entries is a possible run. *)
Definition ListServicesReturns (r : Registry) (result : list ServiceInfo) : Prop :=
  exists entries, entries ≡ₚ map_to_list (services r) /\ result = map serviceInfo entries.

(** [Error()]; [Quote] is [strconv.Quote], for [%q]. *)
Definition LookupError_text (Quote : string -> string) (e : LookupError) : string :=
  match e with
  | ServiceNotFound name => "service not found: " +:+ name
  | NoSuchMethod methodName serviceName available =>
      "method " +:+ Quote methodName +:+ " not found in service " +:+ serviceName
      +:+ ". Available methods: " +:+ Join available ", "
  end.

End Proto.

(** Two files with a service each, for the examples. *)
Definition sampleRegistry : Proto.Registry :=
  Proto.registryOf
    [Proto.mkFile [Proto.mkService "example.UserService"
                     [Proto.mkMethod "GetUser" "example.GetUserRequest" "example.User";
                      Proto.mkMethod "ListUsers" "example.ListUsersRequest" "example.Users"]];
     Proto.mkFile [Proto.mkService "example.Health"
                     [Proto.mkMethod "Check" "example.Ping" "example.Pong"]]].

(** ** The call command: the headers of the command line *)
Module CallCmd.

Inductive HeaderError : Type := InvalidHeader (h : string).

(** The loop over the [--header] flags. *)
Fixpoint parseHeaders (headers : list string) (headerMap : gmap string string)
  : result HeaderError (gmap string string) :=
  match headers with
  | [] => Ok headerMap
  | h :: rest =>
      match SplitN2 h ":" with
      | [k; v] => parseHeaders rest (<[TrimSpace k := TrimSpace v]> headerMap)
      | _ => Err (InvalidHeader h)
      end
  end.

(** The key and the value a header with a colon stands for. *)
Definition headerPair (h : string) : string * string :=
  match Index h ":" with
  | Some i => (TrimSpace (take i h), TrimSpace (drop (i + 1) h))
  | None => (EmptyString, EmptyString)
  end.

End CallCmd.

(** ** The URL of a call (the beginning of [Client.Call]) *)
Module CallURL.

(** [fmt.Sprintf("/%s/%s", svc.FullName(), method.Name())]. *)
Definition callPath (serviceFullName methodName : string) : string :=
  "/" +:+ serviceFullName +:+ "/" +:+ methodName.

Definition fullURL (c : Grpc.Client) (serviceFullName methodName : string) : string :=
  let url := Grpc.address c in
  let url := if negb (String.eqb (Grpc.prefix c) EmptyString) then url +:+ Grpc.prefix c else url in
  url +:+ callPath serviceFullName methodName.

End CallURL.

(** * Properties *)

Example TrimSpace_ex : TrimSpace "  	[Captures] " = "[Captures]".
Proof. reflexivity. Qed.

Example Fields_ex : Fields " jsonpath $.id  ==  x " = ["jsonpath"; "$.id"; "=="; "x"].
Proof. reflexivity. Qed.

Example ReplaceAll_ex : ReplaceAll "a{{k}}b{{k}}" "{{k}}" "{{k}}!" = "a{{k}}!b{{k}}!".
Proof. reflexivity. Qed.

Example Substitute_test_single :
substituteEntries "Bearer {{token}}" [("token", "secret-123"); ("id", "42"); ("host", "localhost")]
= "Bearer secret-123".
Proof. reflexivity. Qed.

Example Substitute_test_mixed :
substituteEntries "{{token}} and {{name}}" [("host", "localhost"); ("token", "secret-123")]
= "secret-123 and {{name}}".
Proof. reflexivity. Qed.

(** ** Facts about the string functions *)
Section StringFacts.

Lemma append_cons (c : ascii) (a b : string) : String c a +:+ b = String c (a +:+ b).
Proof. reflexivity. Qed.

Lemma append_empty_l (b : string) : EmptyString +:+ b = b.
Proof. reflexivity. Qed.

Lemma len_append (a b : string) : len (a +:+ b) = len a + len b.
Proof.
  induction a as [|c a IH]; [reflexivity|].
  rewrite append_cons. unfold len in *. simpl. now rewrite IH.
Qed.

Lemma append_empty_r (a : string) : a +:+ EmptyString = a.
Proof. induction a as [|c a IH]; [reflexivity | now rewrite append_cons, IH]. Qed.

Lemma append_assoc (a b c : string) : (a +:+ b) +:+ c = a +:+ (b +:+ c).
Proof. induction a as [|x a IH]; [reflexivity | now rewrite !append_cons, IH]. Qed.

Lemma len_drop (n : nat) (s : string) : len (drop n s) = len s - n.
Proof.
  revert s; induction n as [|n IH]; intros [|c s]; simpl; try reflexivity.
  rewrite IH. reflexivity.
Qed.

Lemma drop_len (s : string) : drop (len s) s = EmptyString.
Proof. induction s as [|c s IH]; simpl; [reflexivity | exact IH]. Qed.

Lemma drop_append (a b : string) : drop (len a) (a +:+ b) = b.
Proof. induction a as [|c a IH]; [reflexivity | rewrite append_cons; exact IH]. Qed.

Lemma take_append (a b : string) : take (len a) (a +:+ b) = a.
Proof.
  induction a as [|c a IH]; [reflexivity|].
  rewrite append_cons. simpl. now rewrite IH.
Qed.

Lemma take_drop (n : nat) (s : string) : take n s +:+ drop n s = s.
Proof.
  revert s; induction n as [|n IH]; intros [|c s]; simpl; try reflexivity.
  now rewrite append_cons, IH.
Qed.

Lemma len_take (n : nat) (s : string) : n <= len s -> len (take n s) = n.
Proof.
  revert s; induction n as [|n IH]; intros [|c s]; unfold len; simpl; try lia.
  intros H. f_equal. apply IH. unfold len. lia.
Qed.

Lemma HasPrefix_refl (s : string) : HasPrefix s s = true.
Proof. induction s as [|c s IH]; simpl; [reflexivity | now rewrite Ascii.eqb_refl]. Qed.

Lemma HasPrefix_append (p b : string) : HasPrefix (p +:+ b) p = true.
Proof.
  induction p as [|c p IH]; [reflexivity|].
  rewrite append_cons. simpl. now rewrite Ascii.eqb_refl.
Qed.

Lemma HasPrefix_len (s p : string) : HasPrefix s p = true -> len p <= len s.
Proof.
  revert s; induction p as [|c p IH]; intros [|d s]; unfold len; simpl; try lia; try discriminate.
  intros H. apply andb_true_iff in H as [_ H]. apply IH in H. unfold len in H. lia.
Qed.

Lemma HasPrefix_split (s p : string) : HasPrefix s p = true -> s = p +:+ drop (len p) s.
Proof.
  revert s; induction p as [|c p IH]; intros [|d s]; simpl; try reflexivity; try discriminate.
  intros H. apply andb_true_iff in H as [Hc H].
  apply Ascii.eqb_eq in Hc. subst d. rewrite append_cons. f_equal. now apply IH.
Qed.

Lemma Index_bound (s sub : string) (j : nat) :
  Index s sub = Some j -> j + len sub <= len s.
Proof.
  revert j; induction s as [|c s IH]; intros j; simpl.
  - destruct (HasPrefix EmptyString sub) eqn:E; [|discriminate].
    intros [= <-]. apply HasPrefix_len in E. unfold len in *. simpl in *. lia.
  - destruct (HasPrefix (String c s) sub) eqn:E.
    + intros [= <-]. apply HasPrefix_len in E. unfold len in *. simpl in *. lia.
    + destruct (Index s sub) as [i|]; simpl; [|discriminate].
      intros [= <-]. specialize (IH i eq_refl). unfold len in *. simpl. lia.
Qed.

Lemma Index_prefix (s sub : string) (j : nat) :
  Index s sub = Some j -> HasPrefix (drop j s) sub = true.
Proof.
  revert j; induction s as [|c s IH]; intros j; simpl.
  - destruct (HasPrefix EmptyString sub) eqn:E; [|discriminate].
    intros [= <-]. exact E.
  - destruct (HasPrefix (String c s) sub) eqn:E.
    + intros [= <-]. exact E.
    + destruct (Index s sub) as [i|]; simpl; [|discriminate].
      intros [= <-]. simpl. now apply IH.
Qed.

(** More rounds than the string has bytes change nothing. *)
Lemma replaceLoop_rounds (old new : string) :
  old <> EmptyString ->
  forall n m s, len s <= n -> len s <= m ->
    replaceLoop n s old new = replaceLoop m s old new.
Proof.
  intros Hold. induction n as [|n IH]; intros m s Hn Hm.
  - destruct s; [|unfold len in Hn; simpl in Hn; lia].
    destruct m; simpl; [reflexivity|].
    destruct old; [congruence | reflexivity].
  - destruct m as [|m].
    + destruct s; [|unfold len in Hm; simpl in Hm; lia].
      simpl. destruct old; [congruence | reflexivity].
    + simpl. destruct (Index s old) as [j|] eqn:E; [|reflexivity].
      apply Index_bound in E.
      assert (0 < len old) by (destruct old; [congruence | unfold len; simpl; lia]).
      do 2 f_equal. apply IH; rewrite len_drop; lia.
Qed.

(** The equation of the loop of [strings.Replace]. *)
Lemma ReplaceAll_unfold (s old new : string) :
  old <> EmptyString ->
  ReplaceAll s old new =
    match Index s old with
    | None => s
    | Some j => take j s +:+ new +:+ ReplaceAll (drop (j + len old) s) old new
    end.
Proof.
  intros Hold. unfold ReplaceAll. destruct old as [|c old]; [congruence|].
  destruct (len s) as [|n] eqn:El.
  - destruct s; [reflexivity | discriminate].
  - simpl replaceLoop. destruct (Index s (String c old)) as [j|] eqn:E; [|reflexivity].
    apply Index_bound in E. do 2 f_equal.
    apply replaceLoop_rounds; [discriminate | | lia].
    rewrite len_drop. unfold len in *. simpl in *. lia.
Qed.

Lemma ReplaceAll_absent (s old new : string) :
  Contains s old = false -> ReplaceAll s old new = s.
Proof.
  unfold Contains. destruct (Index s old) as [j|] eqn:E; [discriminate|]. intros _.
  destruct old as [|c old].
  - destruct s; discriminate.
  - rewrite ReplaceAll_unfold by discriminate. now rewrite E.
Qed.

Lemma ReplaceAll_whole (old new : string) :
  old <> EmptyString -> ReplaceAll old old new = new.
Proof.
  intros Hold. rewrite ReplaceAll_unfold by assumption.
  assert (E : Index old old = Some 0).
  { destruct old; [congruence|]. simpl. now rewrite Ascii.eqb_refl, HasPrefix_refl. }
  rewrite E. simpl. rewrite drop_len.
  rewrite ReplaceAll_unfold by assumption.
  destruct old; [congruence|]. simpl. apply append_empty_r.
Qed.

Lemma placeholder_nonempty (key : string) : placeholder key <> EmptyString.
Proof. discriminate. Qed.

End StringFacts.

(** ** The template substitutor *)
Section TemplateFacts.

Lemma substituteEntries_cons (input : string) (e : string * string) (rest : list (string * string)) :
  substituteEntries input (e :: rest) = substituteEntries (substituteEntry input e) rest.
Proof. reflexivity. Qed.

Lemma substituteEntries_snoc (input : string) (entries : list (string * string)) (e : string * string) :
  substituteEntries input (entries ++ [e]) = substituteEntry (substituteEntries input entries) e.
Proof. unfold substituteEntries. now rewrite fold_left_app. Qed.

(** Entries whose placeholder does not occur leave the text as it is. *)
Lemma substituteEntries_absent (text : string) (entries : list (string * string)) :
  (forall e, e ∈ entries -> Contains text (placeholder e.1) = false) ->
  substituteEntries text entries = text.
Proof.
  induction entries as [|e entries IH]; intros H; [reflexivity|].
  rewrite substituteEntries_cons. unfold substituteEntry.
  rewrite ReplaceAll_absent by (apply H; left).
  apply IH. intros e' He'. apply H. now right.
Qed.

(** The occurrence found first is replaced and the text after it is
    scanned on; what was written is not looked at again in this pass. *)
Lemma ReplaceAll_first (a old b new : string) :
  old <> EmptyString ->
  Index (a +:+ old +:+ b) old = Some (len a) ->
  ReplaceAll (a +:+ old +:+ b) old new = a +:+ new +:+ ReplaceAll b old new.
Proof.
  intros Hold Hidx. rewrite ReplaceAll_unfold by assumption. rewrite Hidx.
  rewrite take_append. do 2 f_equal.
  assert (E : a +:+ old +:+ b = (a +:+ old) +:+ b).
  { clear. induction a as [|c a IH]; [reflexivity|]. rewrite !append_cons. now rewrite IH. }
  rewrite E, <- len_append. now rewrite drop_append.
Qed.

Lemma SubstituteReturns_singleton (input k v output : string) :
  SubstituteReturns input {[k := v]} output ->
  output = ReplaceAll input (placeholder k) v.
Proof.
  intros (entries & Hperm & ->).
  rewrite map_to_list_singleton in Hperm.
  apply Permutation_singleton_r in Hperm. now subst entries.
Qed.

Lemma SubstituteReturns_total (input : string) (vars : gmap string string) :
  exists output, SubstituteReturns input vars output.
Proof. exists (substituteEntries input (map_to_list vars)), (map_to_list vars). split; reflexivity. Qed.

(** For every order of [range], [Substitute] is one of the possible runs. *)
Lemma Substitute_SubstituteReturns rangeOrder (input : string) (vars : gmap string string) :
  rangeOrder vars ≡ₚ map_to_list vars ->
  SubstituteReturns input vars (Substitute rangeOrder input vars).
Proof.
  intros Hperm. unfold Substitute. destruct (decide (size vars = 0)) as [Hz|Hnz].
  - apply map_size_empty_iff in Hz. subst vars.
    exists []. split; [now rewrite map_to_list_empty | reflexivity].
  - now exists (rangeOrder vars).
Qed.

End TemplateFacts.

(** C3 (as stated, refuted): with the mapping a = "{{b}}", b = "X" and the
    input "{{a}}", a run that visits a before b replaces the placeholder
    inside the value just substituted and returns "X". *)
Lemma Substitute_rescans_value :
  let vars : gmap string string := <["a" := "{{b}}"]> {["b" := "X"]} in
  vars !! "a" = Some "{{b}}" /\
  SubstituteReturns "{{a}}" vars "X" /\
  "X" <> "{{b}}".
Proof.
  cbv zeta. split; [apply lookup_insert_eq|]. split; [|discriminate].
  exists [("a", "{{b}}"); ("b", "X")]. split; [|reflexivity].
  rewrite map_to_list_insert by (now apply lookup_singleton_ne).
  now rewrite map_to_list_singleton.
Qed.

(** C3 (amended): [Substitute] applies one literal replace-all per entry of
    the mapping, in the order in which the map is ranged over.  Where the
    first occurrence of the placeholder of [k] follows [a], a one-entry
    mapping yields [a], the value as it is, and the rest of the input with
    its own occurrences replaced: the value written is not scanned again.
    With further entries, these are applied to that whole text, the value
    included. *)
Theorem Substitute_sequential (k v a b : string) (rest : list (string * string)) :
  Index (a +:+ placeholder k +:+ b) (placeholder k) = Some (len a) ->
  (forall output,
      SubstituteReturns (a +:+ placeholder k +:+ b) {[k := v]} output ->
      output = a +:+ v +:+ ReplaceAll b (placeholder k) v) /\
  substituteEntries (a +:+ placeholder k +:+ b) ((k, v) :: rest)
  = substituteEntries (a +:+ v +:+ ReplaceAll b (placeholder k) v) rest.
Proof.
  intros Hidx. split.
  - intros output H. apply SubstituteReturns_singleton in H. subst output.
    now apply ReplaceAll_first.
  - rewrite substituteEntries_cons. unfold substituteEntry. simpl fst. simpl snd.
    now rewrite ReplaceAll_first.
Qed.

Lemma Substitute_sequential_witness :
  (forall output,
      SubstituteReturns ("x" +:+ placeholder "a" +:+ "y") {["a" := "{{a}}{{b}}"]} output ->
      output = "x" +:+ "{{a}}{{b}}" +:+ ReplaceAll "y" (placeholder "a") "{{a}}{{b}}") /\
  substituteEntries ("x" +:+ placeholder "a" +:+ "y") [("a", "{{a}}{{b}}"); ("b", "X")]
  = substituteEntries ("x" +:+ "{{a}}{{b}}" +:+ ReplaceAll "y" (placeholder "a") "{{a}}{{b}}") [("b", "X")].
Proof. apply (Substitute_sequential "a" "{{a}}{{b}}" "x" "y" [("b", "X")]). reflexivity. Defined.

(** C7 (as stated, refuted): the mapping k = "k" has no value that
    contains a placeholder, and substituting twice in "{{{{k}}}}" gives
    "k" where substituting once gives "{{k}}". *)
Lemma Substitute_not_idempotent :
  let vars : gmap string string := {["k" := "k"]} in
  (forall key value key', vars !! key = Some value -> is_Some (vars !! key') ->
                          Contains value (placeholder key') = false) /\
  (forall once twice,
      SubstituteReturns "{{{{k}}}}" vars once ->
      SubstituteReturns once vars twice ->
      once = "{{k}}" /\ twice = "k" /\ twice <> once).
Proof.
  cbv zeta. split.
  - intros key value key' Hv [x Hk].
    apply lookup_singleton_Some in Hv as [<- <-].
    apply lookup_singleton_Some in Hk as [<- _]. reflexivity.
  - intros once twice H1 H2.
    apply SubstituteReturns_singleton in H1. subst once.
    apply SubstituteReturns_singleton in H2. subst twice.
    repeat split. discriminate.
Qed.

(** C7 (amended): when the text [Substitute] returned holds no placeholder
    of a key of the mapping any more, substituting again returns it
    unchanged, whatever the order of the entries. *)
Theorem Substitute_idempotent_when_settled (s : string) (v : gmap string string) (once : string) :
  SubstituteReturns s v once ->
  (forall key value, v !! key = Some value -> Contains once (placeholder key) = false) ->
  SubstituteReturns once v once /\
  (forall twice, SubstituteReturns once v twice -> twice = once).
Proof.
  intros _ Hclean.
  assert (Hall : forall entries, entries ≡ₚ map_to_list v -> substituteEntries once entries = once).
  { intros entries Hperm. apply substituteEntries_absent. intros [key value] He.
    rewrite Hperm in He. apply elem_of_map_to_list in He. now apply (Hclean key value). }
  split.
  - exists (map_to_list v). split; [reflexivity|]. symmetry. now apply Hall.
  - intros twice (entries & Hperm & ->). now apply Hall.
Qed.

Lemma Substitute_idempotent_when_settled_witness :
  SubstituteReturns "Bearer secret" {["token" := "secret"]} "Bearer secret" /\
  (forall twice, SubstituteReturns "Bearer secret" {["token" := "secret"]} twice -> twice = "Bearer secret").
Proof.
  apply (Substitute_idempotent_when_settled "Bearer {{token}}" {["token" := "secret"]} "Bearer secret").
  - exists [("token", "secret")]. split; [now rewrite map_to_list_singleton | reflexivity].
  - intros key value H. apply lookup_singleton_Some in H as [<- <-]. reflexivity.
Defined.

(** ** The document parser *)
Section ParserFacts.

Local Arguments HasPrefix : simpl never.
Local Arguments TrimSpace : simpl never.
Local Arguments String.eqb : simpl never.

Variable ParseDuration : string -> result string Z.

Lemma parseLines_app (st : parser) (l1 l2 : list string) :
  parseLines ParseDuration st (l1 ++ l2) =
    match parseLines ParseDuration st l1 with
    | Err e => Err e
    | Ok st' => parseLines ParseDuration st' l2
    end.
Proof.
  revert st; induction l1 as [|line l1 IH]; intros st; simpl; [reflexivity|].
  destruct (parseLine ParseDuration st line); [apply IH | reflexivity].
Qed.

Lemma HasPrefix_brace_not_hash (t : string) :
  HasPrefix t "{" = true ->
  String.eqb t EmptyString = false /\ HasPrefix t "#" = false /\
  String.eqb t "[Captures]" = false /\ String.eqb t "[Asserts]" = false.
Proof.
  destruct t as [|c t]; [discriminate|]. unfold HasPrefix.
  rewrite andb_true_r. intros H. apply Ascii.eqb_eq in H. subst c.
  repeat split; reflexivity.
Qed.

(** A line that starts the body, read in the main section. *)
Lemma parseLine_body_start (st : parser) (line : string) :
  currentSection st = InHeader ->
  HasPrefix (TrimSpace line) "{" = true ->
  parseLine ParseDuration st line = Ok (mkParser (req st) InBody (bodyLines st ++ [line])).
Proof.
  intros Hsec Hbrace. unfold parseLine. rewrite Hsec.
  destruct (HasPrefix_brace_not_hash _ Hbrace) as (-> & -> & -> & ->).
  rewrite Hbrace. reflexivity.
Qed.

(** In the body, a line that is neither a comment nor a marker is kept. *)
Lemma parseLine_body_keep (st : parser) (line : string) :
  currentSection st = InBody ->
  isComment line = false -> isMarker line = false ->
  parseLine ParseDuration st line = Ok (mkParser (req st) InBody (bodyLines st ++ [line])).
Proof.
  unfold isComment, isMarker. intros Hsec Hc Hm.
  apply orb_false_iff in Hm as [Hm1 Hm2].
  unfold parseLine. rewrite Hsec, Hc, Hm1, Hm2. reflexivity.
Qed.

(** In the body, a comment is dropped. *)
Lemma parseLine_body_comment (st : parser) (line : string) :
  currentSection st = InBody ->
  isComment line = true ->
  exists st', parseLine ParseDuration st line = Ok st' /\
              currentSection st' = InBody /\ bodyLines st' = bodyLines st.
Proof.
  unfold isComment. intros Hsec Hc. unfold parseLine. rewrite Hsec, Hc.
  cbn [section_eqb andb].
  destruct (String.eqb (Name (req st)) EmptyString); eexists; (split; [reflexivity|]); now simpl.
Qed.

(** A marker changes the section wherever it is read, the body included,
    unless it is a comment. *)
Lemma parseLine_marker (st : parser) (line : string) :
  isMarker line = true ->
  parseLine ParseDuration st line = Ok (setSection (markerSection line) st).
Proof.
  unfold isMarker, markerSection. intros Hm. unfold parseLine.
  assert (Hne : String.eqb (TrimSpace line) EmptyString = false /\
                HasPrefix (TrimSpace line) "#" = false).
  { apply orb_true_iff in Hm as [H|H]; apply String.eqb_eq in H; rewrite H; now split. }
  destruct Hne as [-> ->]. rewrite andb_false_r.
  destruct (String.eqb (TrimSpace line) "[Captures]"); [reflexivity|].
  simpl in Hm. now rewrite Hm.
Qed.

(** Once in the Captures or Asserts block, no line fails, none is added to
    the body, and the body is not entered again. *)
Lemma parseLine_after_body (st : parser) (line : string) :
  afterBody (currentSection st) ->
  exists st', parseLine ParseDuration st line = Ok st' /\
              afterBody (currentSection st') /\ bodyLines st' = bodyLines st.
Proof.
  intros Hsec. unfold parseLine.
  assert (Hh : section_eqb (currentSection st) InHeader = false)
    by (destruct Hsec as [-> | ->]; reflexivity).
  rewrite Hh. cbn [andb].
  destruct (HasPrefix (TrimSpace line) "#").
  { destruct (String.eqb (Name (req st)) EmptyString); eexists; (split; [reflexivity|]); now simpl. }
  destruct (String.eqb (TrimSpace line) "[Captures]").
  { eexists; split; [reflexivity|]. simpl. split; [now left | reflexivity]. }
  destruct (String.eqb (TrimSpace line) "[Asserts]").
  { eexists; split; [reflexivity|]. simpl. split; [now right | reflexivity]. }
  destruct Hsec as [Hs | Hs]; rewrite Hs.
  - destruct (String.eqb (TrimSpace line) EmptyString).
    { eexists; split; [reflexivity|]. rewrite Hs. split; [now left | reflexivity]. }
    destruct (SplitN2 line ":") as [|k [|v [|]]];
      eexists; (split; [reflexivity|]); simpl; rewrite ?Hs; (split; [now left | reflexivity]).
  - destruct (String.eqb (TrimSpace line) EmptyString).
    { eexists; split; [reflexivity|]. rewrite Hs. split; [now right | reflexivity]. }
    destruct (parseAssertion (TrimSpace line));
      eexists; (split; [reflexivity|]); simpl; rewrite ?Hs; (split; [now right | reflexivity]).
Qed.

Lemma parseLines_after_body (lines : list string) (st : parser) :
  afterBody (currentSection st) ->
  exists st', parseLines ParseDuration st lines = Ok st' /\
              afterBody (currentSection st') /\ bodyLines st' = bodyLines st.
Proof.
  revert st; induction lines as [|line lines IH]; intros st Hsec; simpl.
  - now exists st.
  - destruct (parseLine_after_body st line Hsec) as (st1 & -> & Hsec1 & Hb1).
    destruct (IH st1 Hsec1) as (st' & Hrun & Hsec' & Hb').
    exists st'. repeat split; [assumption | assumption | congruence].
Qed.

(** The lines of the body up to the first marker: comments are dropped,
    the others are kept as they are. *)
Lemma parseLines_body (body : list string) (st : parser) :
  currentSection st = InBody ->
  Forall (fun line => isMarker line = false) body ->
  exists st', parseLines ParseDuration st body = Ok st' /\
              currentSection st' = InBody /\
              bodyLines st' = bodyLines st ++ List.filter (fun line => negb (isComment line)) body.
Proof.
  revert st; induction body as [|line body IH]; intros st Hsec Hall; simpl.
  - exists st. now rewrite app_nil_r.
  - inversion Hall as [|? ? Hm Hall']; subst.
    destruct (isComment line) eqn:Hc; simpl.
    + destruct (parseLine_body_comment st line Hsec Hc) as (st1 & -> & Hsec1 & Hb1).
      destruct (IH st1 Hsec1 Hall') as (st' & Hrun & Hsec' & Hb').
      exists st'. repeat split; [assumption | assumption | congruence].
    + rewrite (parseLine_body_keep st line Hsec Hc Hm).
      destruct (IH (mkParser (req st) InBody (bodyLines st ++ [line])) eq_refl Hall')
        as (st' & Hrun & Hsec' & Hb').
      exists st'. repeat split; [assumption | assumption |].
      rewrite Hb'. simpl. now rewrite <- app_assoc.
Qed.

(** The main section is never come back to, and nothing is collected
    while in it. *)
Lemma parseLine_header_back (st st' : parser) (line : string) :
  parseLine ParseDuration st line = Ok st' ->
  currentSection st' = InHeader ->
  currentSection st = InHeader /\ bodyLines st' = bodyLines st.
Proof.
  unfold parseLine. intros Hstep Hsec'.
  destruct (currentSection st) eqn:Hsec.
  - split; [reflexivity|]. cbn [section_eqb andb] in Hstep.
    repeat match type of Hstep with
           | (if ?b then _ else _) = _ => destruct b
           | match ?x with _ => _ end = _ => destruct x
           end;
      try (injection Hstep as <-); try discriminate; try reflexivity.
  - exfalso. cbn [section_eqb andb] in Hstep.
    repeat match type of Hstep with
           | (if ?b then _ else _) = _ => destruct b
           | match ?x with _ => _ end = _ => destruct x
           end;
      try (injection Hstep as <-); try discriminate; simpl in Hsec'; congruence.
  - exfalso. destruct (parseLine_after_body st line) as (st1 & Hst1 & Haft & _).
    { left. exact Hsec. }
    unfold parseLine in Hst1. rewrite Hsec in Hst1. rewrite Hst1 in Hstep.
    injection Hstep as <-. destruct Haft; congruence.
  - exfalso. destruct (parseLine_after_body st line) as (st1 & Hst1 & Haft & _).
    { right. exact Hsec. }
    unfold parseLine in Hst1. rewrite Hsec in Hst1. rewrite Hst1 in Hstep.
    injection Hstep as <-. destruct Haft; congruence.
Qed.

Lemma parseLines_header_back (lines : list string) (st st' : parser) :
  parseLines ParseDuration st lines = Ok st' ->
  currentSection st' = InHeader ->
  currentSection st = InHeader /\ bodyLines st' = bodyLines st.
Proof.
  revert st; induction lines as [|line lines IH]; intros st; simpl.
  - intros [= <-] H. now split.
  - destruct (parseLine ParseDuration st line) as [st1|e] eqn:Hstep; [|discriminate].
    intros Hrun Hsec'. destruct (IH st1 Hrun Hsec') as [Hsec1 Hb1].
    destruct (parseLine_header_back st st1 line Hstep Hsec1) as [Hsec Hb].
    split; [assumption | congruence].
Qed.

Ltac parse_cases H :=
  repeat match type of H with
         | (if ?b then _ else _) = _ => destruct b eqn:?
         | match ?x with _ => _ end = _ => destruct x eqn:?
         end.

(** A line with another key leaves the protocol and the timeout alone. *)
Lemma parseField_keeps_Protocol (key value : string) (r r' : RequestFile) :
  parseField ParseDuration key value r = Ok r' ->
  key <> "Protocol" ->
  Protocol r' = Protocol r.
Proof.
  unfold parseField. intros H Hkey.
  parse_cases H; try discriminate; injection H as <-; try reflexivity.
  exfalso. apply Hkey. now apply String.eqb_eq.
Qed.

Lemma parseField_keeps_Timeout (key value : string) (r r' : RequestFile) :
  parseField ParseDuration key value r = Ok r' ->
  key <> "Timeout" ->
  Timeout r' = Timeout r.
Proof.
  unfold parseField. intros H Hkey.
  parse_cases H; try discriminate; injection H as <-; try reflexivity.
  exfalso. apply Hkey. now apply String.eqb_eq.
Qed.

Lemma parseLine_keeps_Protocol (st st' : parser) (line : string) :
  parseLine ParseDuration st line = Ok st' ->
  fieldKey line <> Some "Protocol" ->
  Protocol (req st') = Protocol (req st).
Proof.
  unfold parseLine, fieldKey. intros Hstep Hkey.
  parse_cases Hstep; try discriminate; injection Hstep as <-; try reflexivity.
  simpl. eapply parseField_keeps_Protocol; [eassumption|]. congruence.
Qed.

Lemma parseLine_keeps_Timeout (st st' : parser) (line : string) :
  parseLine ParseDuration st line = Ok st' ->
  fieldKey line <> Some "Timeout" ->
  Timeout (req st') = Timeout (req st).
Proof.
  unfold parseLine, fieldKey. intros Hstep Hkey.
  parse_cases Hstep; try discriminate; injection Hstep as <-; try reflexivity.
  simpl. eapply parseField_keeps_Timeout; [eassumption|]. congruence.
Qed.

Lemma parseLine_no_brace (st st' : parser) (line : string) :
  parseLine ParseDuration st line = Ok st' ->
  HasPrefix (TrimSpace line) "{" = false ->
  currentSection st <> InBody ->
  currentSection st' <> InBody /\ bodyLines st' = bodyLines st.
Proof.
  unfold parseLine. intros Hstep Hbrace Hsec. rewrite Hbrace in Hstep.
  rewrite andb_false_r in Hstep.
  destruct (currentSection st) eqn:Hs; [| congruence | |];
    cbn [section_eqb andb] in Hstep;
    parse_cases Hstep; try discriminate; injection Hstep as <-; simpl;
      rewrite ?Hs; split; (reflexivity || discriminate).
Qed.

Lemma parseLines_keeps {A : Type} (proj : RequestFile -> A) (ok : string -> Prop)
    (lines : list string) :
  (forall st st' line, parseLine ParseDuration st line = Ok st' -> ok line ->
                       proj (req st') = proj (req st)) ->
  forall st st', parseLines ParseDuration st lines = Ok st' ->
                 Forall ok lines -> proj (req st') = proj (req st).
Proof.
  intros Hstep. induction lines as [|line lines IH]; intros st st'; simpl.
  - now intros [= <-].
  - destruct (parseLine ParseDuration st line) as [st1|] eqn:E; [|discriminate].
    intros Hrun Hall. inversion Hall; subst.
    rewrite (IH st1 st') by assumption. now apply (Hstep st st1 line).
Qed.

Lemma parseLines_no_brace (lines : list string) (st st' : parser) :
  parseLines ParseDuration st lines = Ok st' ->
  Forall (fun line => HasPrefix (TrimSpace line) "{" = false) lines ->
  currentSection st <> InBody ->
  currentSection st' <> InBody /\ bodyLines st' = bodyLines st.
Proof.
  revert st; induction lines as [|line lines IH]; intros st; simpl.
  - intros [= <-]. now split.
  - destruct (parseLine ParseDuration st line) as [st1|] eqn:E; [|discriminate].
    intros Hrun Hall Hsec. inversion Hall; subst.
    destruct (parseLine_no_brace st st1 line E) as [Hsec1 Hb1]; [assumption..|].
    destruct (IH st1 Hrun) as [Hsec' Hb']; [assumption..|].
    split; [assumption | congruence].
Qed.

Lemma finish_Ok (st : parser) (r : RequestFile) :
  finish st = Ok r -> r = setBody (finalBody st) (req st).
Proof.
  unfold finish. intros H. parse_cases H; try discriminate. now injection H as <-.
Qed.

End ParserFacts.

Example parseContent_test_defaults :
  exists r, parseContent parseDuration5s
              ["GRPC http://localhost:8080"; "Service: example.Service"; "Method: DoSomething"] 1 = Ok r
            /\ Protocol r = "grpc-web" /\ Timeout r = (30 * Second)%Z /\ Body r = "{}".
Proof. eexists. split; [reflexivity|]. repeat split. Qed.

Example parseContent_test_timeout :
  exists r, parseContent parseDuration5s
              ["GRPC http://localhost:8080"; "Service: example.Service"; "Method: DoSomething";
               "Timeout: 5s"; "{}"] 1 = Ok r
            /\ Timeout r = (5 * Second)%Z /\ Body r = "{}".
Proof. eexists. split; [reflexivity|]. repeat split. Qed.

(** C1 (as stated, refuted): the body starts at the line "{}"; the line
    "[Captures]" after it is not stored in the body but starts the
    Captures block, and the line after that is read as a capture. *)
Lemma body_left_at_marker :
  let lines := ["GRPC http://localhost:8080"; "Service: svc"; "Method: method";
                "{}"; "[Captures]"; "id: user.id"] in
  exists st r,
    parseLines parseDuration5s initial (firstn 3 lines) = Ok st /\
    currentSection st = InHeader /\
    HasPrefix (TrimSpace (nth 3 lines EmptyString)) "{" = true /\
    parseContent parseDuration5s lines 1 = Ok r /\
    Body r = "{}" /\
    Captures r !! "id" = Some "user.id" /\
    Body r <> Join (skipn 3 lines) newline.
Proof.
  cbv zeta. eexists. eexists.
  split; [reflexivity|]. split; [reflexivity|]. split; [reflexivity|].
  split; [reflexivity|]. split; [reflexivity|]. split; [|discriminate].
  simpl. apply lookup_insert_eq.
Qed.

(** C1 (amended): once a line whose trimmed form begins with '{' has
    started the body, the lines after it are collected as they are, blank
    ones included, up to the end of the segment or to the first line whose
    trimmed form is [Captures] or [Asserts]; lines whose trimmed form
    begins with '#' are comments and are left out.  The marker and the
    lines after it are not body text, and the body of the record is the
    collected lines joined by line feeds. *)
Theorem body_collected_until_marker (ParseDuration : string -> result string Z)
    (header : list string) (st : parser) (first : string) (body rest : list string) :
  parseLines ParseDuration initial header = Ok st ->
  currentSection st = InHeader ->
  HasPrefix (TrimSpace first) "{" = true ->
  Forall (fun line => isMarker line = false) body ->
  (rest = [] \/ exists marker rest', rest = marker :: rest' /\ isMarker marker = true) ->
  exists st',
    parseLines ParseDuration initial (header ++ first :: body ++ rest) = Ok st' /\
    bodyLines st' = first :: List.filter (fun line => negb (isComment line)) body /\
    (rest <> [] -> afterBody (currentSection st')) /\
    forall r, finish st' = Ok r ->
              Body r = Join (first :: List.filter (fun line => negb (isComment line)) body) newline.
Proof.
  intros Hhead Hsec Hbrace Hbody Hrest.
  destruct (parseLines_header_back ParseDuration header initial st Hhead Hsec) as [_ Hnil].
  simpl in Hnil.
  rewrite parseLines_app, Hhead. simpl parseLines.
  rewrite (parseLine_body_start ParseDuration st first Hsec Hbrace), Hnil. simpl app.
  rewrite parseLines_app.
  destruct (parseLines_body ParseDuration body (mkParser (req st) InBody [first]) eq_refl Hbody)
    as (st1 & -> & Hsec1 & Hb1). simpl in Hb1.
  assert (Hfin : forall st', bodyLines st' = bodyLines st1 -> forall r, finish st' = Ok r ->
            Body r = Join (first :: List.filter (fun line => negb (isComment line)) body) newline).
  { intros st' Hb r Hr. apply finish_Ok in Hr. subst r. simpl.
    unfold finalBody. now rewrite Hb, Hb1. }
  destruct Hrest as [-> | (marker & rest' & -> & Hm)].
  - exists st1. simpl. repeat split; [assumption | congruence | now apply Hfin].
  - simpl parseLines. rewrite (parseLine_marker ParseDuration st1 marker Hm).
    destruct (parseLines_after_body ParseDuration rest' (setSection (markerSection marker) st1))
      as (st' & -> & Hsec' & Hb').
    { simpl. unfold markerSection, afterBody. destruct (String.eqb _ _); auto. }
    simpl in Hb'. exists st'. repeat split; [congruence | auto | apply Hfin; congruence].
Qed.

Lemma body_collected_until_marker_witness :
  exists st',
    parseLines parseDuration5s initial
      (["GRPC http://localhost:8080"; "Service: svc"; "Method: method"]
         ++ "{" :: [" # note"; EmptyString; "}"] ++ ["[Captures]"; "id: user.id"]) = Ok st' /\
    bodyLines st' = "{" :: List.filter (fun line => negb (isComment line)) [" # note"; EmptyString; "}"] /\
    (["[Captures]"; "id: user.id"] <> [] -> afterBody (currentSection st')) /\
    forall r, finish st' = Ok r ->
              Body r = Join ("{" :: List.filter (fun line => negb (isComment line))
                                      [" # note"; EmptyString; "}"]) newline.
Proof.
  eapply (body_collected_until_marker parseDuration5s).
  - reflexivity.
  - reflexivity.
  - reflexivity.
  - repeat constructor.
  - right. exists "[Captures]", ["id: user.id"]. repeat split.
Defined.

(** C8: a segment that parses and has no [Protocol:] line keeps the
    protocol "grpc-web"; with no [Timeout:] line it keeps the timeout of 30
    seconds; and when no body line was collected (as when no line begins
    with '{') its body is "{}". *)
Theorem parseContent_defaults (ParseDuration : string -> result string Z)
    (lines : list string) (requestNum : nat) (r : RequestFile) :
  parseContent ParseDuration lines requestNum = Ok r ->
  (Forall (fun line => fieldKey line <> Some "Protocol") lines -> Protocol r = "grpc-web") /\
  (Forall (fun line => fieldKey line <> Some "Timeout") lines -> Timeout r = (30 * Second)%Z) /\
  (forall st, parseLines ParseDuration initial lines = Ok st -> bodyLines st = [] -> Body r = "{}") /\
  (Forall (fun line => HasPrefix (TrimSpace line) "{" = false) lines -> Body r = "{}").
Proof.
  unfold parseContent.
  destruct (parseLines ParseDuration initial lines) as [st|e] eqn:Hrun; [|discriminate].
  intros Hfin. apply finish_Ok in Hfin. subst r.
  assert (Hbody : bodyLines st = [] -> Body (setBody (finalBody st) (req st)) = "{}").
  { intros Hb. simpl. unfold finalBody. now rewrite Hb. }
  split; [|split; [|split]].
  - intros Hall. simpl.
    now rewrite (parseLines_keeps ParseDuration Protocol _ lines
                   (parseLine_keeps_Protocol ParseDuration) initial st Hrun Hall).
  - intros Hall. simpl.
    now rewrite (parseLines_keeps ParseDuration Timeout _ lines
                   (parseLine_keeps_Timeout ParseDuration) initial st Hrun Hall).
  - intros st0 [= <-]. exact Hbody.
  - intros Hall. apply Hbody.
    destruct (parseLines_no_brace ParseDuration lines initial st Hrun Hall) as [_ Hb];
      [discriminate | exact Hb].
Qed.

Lemma parseContent_defaults_witness :
  Protocol (setBody "{}" (setMethod "DoSomething" (setService "example.Service"
             (setAddress "http://localhost:8080" newRequest)))) = "grpc-web".
Proof.
  refine (proj1 (parseContent_defaults parseDuration5s
            ["GRPC http://localhost:8080"; "Service: example.Service"; "Method: DoSomething"]
            1 _ _) _).
  - reflexivity.
  - repeat constructor; discriminate.
Defined.

(** C9: when the lines have all been read and the address, the service or
    the method is empty, parsing fails with the error of the first of them
    that is missing, whose text names it; a segment that lacks the method
    only fails with the error of the method. *)
Theorem parseContent_missing_field (ParseDuration : string -> result string Z)
    (Quote : string -> string)
    (lines : list string) (requestNum : nat) (st : parser) :
  parseLines ParseDuration initial lines = Ok st ->
  (Address (req st) = EmptyString ->
   parseContent ParseDuration lines requestNum = Err MissingAddress) /\
  (Address (req st) <> EmptyString -> Service (req st) = EmptyString ->
   parseContent ParseDuration lines requestNum = Err MissingService) /\
  (Address (req st) <> EmptyString -> Service (req st) <> EmptyString ->
   Method (req st) = EmptyString ->
   parseContent ParseDuration lines requestNum = Err MissingMethod) /\
  ParseError_text Quote MissingAddress = "missing required 'GRPC <address>' line" /\
  ParseError_text Quote MissingService = "missing required 'Service:' field" /\
  ParseError_text Quote MissingMethod = "missing required 'Method:' field".
Proof.
  intros Hrun. unfold parseContent, finish. rewrite Hrun. simpl.
  repeat split.
  - intros ->. reflexivity.
  - intros Ha ->. apply String.eqb_neq in Ha. now rewrite Ha.
  - intros Ha Hs ->. apply String.eqb_neq in Ha, Hs. now rewrite Ha, Hs.
Qed.

Lemma parseContent_missing_field_witness :
  parseContent parseDuration5s
    ["GRPC http://localhost:8080"; "Service: example.Service"; "{}"] 1 = Err MissingMethod.
Proof.
  refine (proj1 (proj2 (proj2 (parseContent_missing_field parseDuration5s (fun s => s)
            ["GRPC http://localhost:8080"; "Service: example.Service"; "{}"] 1 _ _))) _ _ _).
  - reflexivity.
  - discriminate.
  - discriminate.
  - reflexivity.
Defined.

(** C10 (as stated, refuted): in the Asserts block, this line has a type,
    a quoted key, an operator and a value that begins with a double quote
    that is never closed, but no space between the key and the operator:
    it has three fields only, and no assertion is recorded. *)
Lemma unterminated_value_skipped :
  let line := "jsonpath " +:+ dquote +:+ "$.id" +:+ dquote +:+ "== " +:+ dquote +:+ "abc" in
  let st := setSection InAsserts initial in
  assertHead (TrimSpace line) = Some ("jsonpath", "$.id", "==", dquote +:+ "abc") /\
  HasPrefix (dquote +:+ "abc") dquote = true /\
  Index (drop 1 (dquote +:+ "abc")) dquote = None /\
  length (Fields (TrimSpace line)) = 3 /\
  parseLine parseDuration5s st line = Ok st /\
  Asserts (req st) = [].
Proof.
  cbv zeta. repeat split; vm_compute; reflexivity.
Qed.

(** C10 (amended): in the Asserts block, a line that has at least four
    fields separated by white space, whose type, quoted key and operator
    are read, and whose value begins with a double quote that is never
    closed adds an assertion all the same, with the empty string as its
    value. *)
Theorem unterminated_value_recorded (ParseDuration : string -> result string Z)
    (st : parser) (line aType key op rest : string) :
  currentSection st = InAsserts ->
  isComment line = false ->
  (4 <= length (Fields (TrimSpace line)))%nat ->
  assertHead (TrimSpace line) = Some (aType, key, op, rest) ->
  HasPrefix rest dquote = true ->
  Index (drop 1 rest) dquote = None ->
  parseLine ParseDuration st line =
    Ok (setReq (fun r => setAsserts (Asserts r ++ [mkAssertion aType key op EmptyString]) r) st).
Proof.
  intros Hsec Hc Hfields Hhead Hq Hopen.
  assert (Hsp : exists i, Index (TrimSpace line) " " = Some i).
  { unfold assertHead in Hhead. destruct (Index (TrimSpace line) " "); [eauto | discriminate]. }
  destruct Hsp as [i Hi].
  assert (Hne : String.eqb (TrimSpace line) EmptyString = false /\
                String.eqb (TrimSpace line) "[Captures]" = false /\
                String.eqb (TrimSpace line) "[Asserts]" = false).
  { repeat split; apply String.eqb_neq; intros E; rewrite E in Hi; discriminate Hi. }
  destruct Hne as (He & Hm1 & Hm2).
  unfold parseLine. unfold isComment in Hc. rewrite Hsec, Hc, He, Hm1, Hm2.
  cbn [section_eqb andb].
  unfold parseAssertion. apply Nat.leb_le in Hfields. rewrite Hfields, Hhead.
  unfold assertValue. now rewrite Hq, Hopen.
Qed.

Lemma unterminated_value_recorded_witness :
  parseLine parseDuration5s (setSection InAsserts initial)
    ("jsonpath " +:+ dquote +:+ "$.id" +:+ dquote +:+ " == " +:+ dquote +:+ "abc") =
    Ok (setReq (fun r => setAsserts (Asserts r ++ [mkAssertion "jsonpath" "$.id" "==" EmptyString]) r)
               (setSection InAsserts initial)).
Proof.
  apply (unterminated_value_recorded parseDuration5s (setSection InAsserts initial)
           ("jsonpath " +:+ dquote +:+ "$.id" +:+ dquote +:+ " == " +:+ dquote +:+ "abc")
           "jsonpath" "$.id" "==" (dquote +:+ "abc")).
  - reflexivity.
  - reflexivity.
  - vm_compute. lia.
  - reflexivity.
  - reflexivity.
  - reflexivity.
Defined.

(** ** Segments *)
Section SegmentFacts.

Variable ParseDuration : string -> result string Z.

Lemma segments_cons (lines : list string) : exists seg segs, segments lines = seg :: segs.
Proof.
  induction lines as [|line lines (seg & segs & IH)]; simpl; [eauto|].
  destruct (isSeparator line); [eauto|]. rewrite IH. eauto.
Qed.

Lemma filter_nonEmpty_one (current : list string) :
  List.filter nonEmpty [current] = match current with [] => [] | _ :: _ => [current] end.
Proof. now destruct current. Qed.

(** The scanning loop keeps the segments that have a line. *)
Lemma scan_segments (lines : list string) (sections : list (list string)) (current : list string) :
  closeSections (fold_left scanLine lines (sections, current))
  = sections ++ List.filter nonEmpty (prependTo current (segments lines)).
Proof.
  revert sections current; induction lines as [|line lines IH]; intros sections current.
  - simpl. rewrite app_nil_r. unfold closeSections. simpl.
    destruct current; [now rewrite app_nil_r | reflexivity].
  - simpl fold_left. simpl segments.
    replace (scanLine (sections, current) line)
      with (if isSeparator line
            then match current with
                 | [] => (sections, current)
                 | _ :: _ => (sections ++ [current], [])
                 end
            else (sections, current ++ [line])) by reflexivity.
    destruct (isSeparator line).
    + destruct (segments_cons lines) as (seg & segs & Hs).
      destruct current as [|l current].
      * rewrite IH. rewrite Hs. reflexivity.
      * rewrite IH. rewrite Hs. simpl prependTo. rewrite app_nil_r.
        simpl List.filter. now rewrite <- app_assoc.
    + rewrite IH. destruct (segments_cons lines) as (seg & segs & ->).
      simpl prependTo. now rewrite <- app_assoc.
Qed.

Lemma scanSections_segments (lines : list string) :
  scanSections lines = List.filter nonEmpty (segments lines).
Proof.
  unfold scanSections.
  pose proof (scan_segments lines [] []) as H. unfold closeSections in H.
  destruct (fold_left scanLine lines ([], [])) as [sections current]. simpl in H.
  destruct (segments_cons lines) as (seg & segs & Hs). rewrite Hs in H |- *.
  simpl in H. exact H.
Qed.

(** The loop over the sections returns a record for each of them, or the
    error of the first that fails. *)
Lemma parseSections_result (sections : list (list string)) (i : nat) :
  match parseSections ParseDuration i sections with
  | Ok requests =>
      Forall2 (fun sec r => forall n, parseContent ParseDuration sec n = Ok r) sections requests
  | Err e =>
      exists k sec pe, sections !! k = Some sec /\
                       parseContent ParseDuration sec (i + k + 1) = Err pe /\
                       e = InRequest (i + k + 1) pe /\
                       forall j sec', j < k -> sections !! j = Some sec' ->
                                      exists r, forall n, parseContent ParseDuration sec' n = Ok r
  end.
Proof.
  revert i; induction sections as [|sec sections IH]; intros i; simpl; [constructor|].
  destruct (parseContent ParseDuration sec (i + 1)) as [r|pe] eqn:E.
  - specialize (IH (S i)).
    destruct (parseSections ParseDuration (S i) sections) as [requests|e].
    + constructor; [|exact IH]. intros n. exact E.
    + destruct IH as (k & sec' & pe & Hk & Hp & -> & Hfirst).
      exists (S k), sec', pe. replace (i + S k + 1) with (S i + k + 1) by lia.
      repeat split; try assumption.
      intros [|j] sec0 Hj Hsec0.
      * injection Hsec0 as <-. exists r. intros n. exact E.
      * apply (Hfirst j sec0); [lia | exact Hsec0].
  - exists 0, sec, pe. replace (i + 0 + 1) with (i + 1) by lia.
    repeat split; try assumption; try reflexivity. intros j sec' Hj. lia.
Qed.

End SegmentFacts.

(** C2 (as stated, refuted): this document has one separator and so two
    segments, the first of them empty; [ParseMultiple] neither fails nor
    returns two records. *)
Lemma ParseMultiple_drops_empty_segment :
  let lines := ["---"; "GRPC http://localhost:8080"; "Service: svc"; "Method: method"] in
  length (segments lines) = 2 /\
  (exists e, parseContent parseDuration5s (nth 0 (segments lines) []) 1 = Err e) /\
  exists r, ParseMultiple parseDuration5s (fileOf lines) "requests.grpc" = Ok [r].
Proof.
  cbv zeta. split; [reflexivity|]. split; eexists; reflexivity.
Qed.

(** Two segments that do not parse: the error is that of the first.  A
    scan that ends with an error: the error is that of the scan, though
    the lines read so far make a request. *)
Example ParseMultiple_first_error :
  ParseMultiple parseDuration5s (fileOf ["Service: s"; "---"; "GRPC http://a"]) "requests.grpc"
  = Err (InRequest 1 MissingAddress) /\
  ParseMultiple parseDuration5s
    (fun _ => Ok (mkScan ["GRPC http://a"; "Service: s"; "Method: m"]
                         (Some "bufio.Scanner: token too long")))
    "requests.grpc"
  = Err (ReadFailed "bufio.Scanner: token too long").
Proof. split; reflexivity. Qed.

(** C2 (amended): a file that cannot be opened, or whose scan ends with
    an error (a failed read, a line too long for the scanner), makes
    [ParseMultiple] fail with that error.  Otherwise [ParseMultiple]
    leaves out the segments without a line.  It returns one record for
    each of the others, in their order, when each of them parses; it
    fails with the error of the first of them that does not parse, under
    its number, and with "no requests found" when there is none. *)
Theorem ParseMultiple_nonempty_segments (ParseDuration : string -> result string Z)
    (Open : string -> result string Scan) (path : string) :
  match Open path with
  | Err cause => ParseMultiple ParseDuration Open path = Err (OpenFailed cause)
  | Ok (mkScan lines (Some cause)) =>
      ParseMultiple ParseDuration Open path = Err (ReadFailed cause)
  | Ok (mkScan lines None) =>
      let segs := List.filter nonEmpty (segments lines) in
      match ParseMultiple ParseDuration Open path with
      | Ok requests =>
          segs <> [] /\ length requests = length segs /\
          Forall2 (fun seg r => forall n, parseContent ParseDuration seg n = Ok r) segs requests
      | Err e =>
          (segs = [] /\ e = NoRequests) \/
          (exists k seg pe,
              segs !! k = Some seg /\
              parseContent ParseDuration seg (k + 1) = Err pe /\
              e = InRequest (k + 1) pe /\
              forall j seg', j < k -> segs !! j = Some seg' ->
                             exists r, forall n, parseContent ParseDuration seg' n = Ok r)
      end
  end.
Proof.
  unfold ParseMultiple. destruct (Open path) as [[lines [cause|]]|cause]; try reflexivity.
  cbv zeta. simpl scanErr. simpl scanned. rewrite scanSections_segments.
  destruct (List.filter nonEmpty (segments lines)) as [|seg segs] eqn:Hsegs.
  - left. now split.
  - pose proof (parseSections_result ParseDuration (seg :: segs) 0) as H.
    destruct (parseSections ParseDuration 0 (seg :: segs)) as [requests|e].
    + split; [discriminate|]. split; [|exact H].
      symmetry. exact (Forall2_length _ _ _ H).
    + right. exact H.
Qed.

(** ** The path evaluator *)
Section PathFacts.

Local Arguments HasPrefix : simpl never.
Local Arguments String.eqb : simpl never.

Lemma len_TrimPrefix (s prefix : string) : len (TrimPrefix s prefix) <= len s.
Proof. unfold TrimPrefix. destruct (HasPrefix s prefix); [rewrite len_drop|]; lia. Qed.

Lemma len_stripRoot (path : string) : len (stripRoot path) <= len path.
Proof.
  unfold stripRoot.
  destruct (HasPrefix path "$."); [apply len_TrimPrefix|].
  destruct (HasPrefix path "$"); [apply len_TrimPrefix | lia].
Qed.

Lemma eqb_empty_len (s : string) : String.eqb s EmptyString = false -> 0 < len s.
Proof. destruct s; [discriminate | unfold len; simpl; lia]. Qed.

Lemma HasPrefix_take (s prefix : string) (n : nat) :
  HasPrefix (take n s) prefix = true -> HasPrefix s prefix = true.
Proof.
  revert s n; induction prefix as [|c prefix IH]; intros s n; [reflexivity|].
  destruct n as [|n], s as [|d s]; try discriminate.
  unfold HasPrefix; fold HasPrefix. simpl take.
  intros H. apply andb_true_iff in H as [-> H]. simpl. now apply (IH s n).
Qed.

Lemma Index_zero (s sub : string) : Index s sub = Some 0 -> HasPrefix s sub = true.
Proof. intros H. now apply Index_prefix in H. Qed.

(** The first segment of a path that does not begin with '[' has its
    bracket, if any, after its first byte. *)
Lemma key_bracket_positive (path : string) (bracketIdx : nat) :
  HasPrefix path "[" = false ->
  Index (hd EmptyString (SplitN2 path ".")) "[" = Some bracketIdx ->
  0 < bracketIdx.
Proof.
  intros Hno Hidx. destruct bracketIdx as [|b]; [|lia]. exfalso.
  apply Index_zero in Hidx. unfold SplitN2 in Hidx.
  destruct (Index path "."); simpl in Hidx.
  - apply HasPrefix_take in Hidx. congruence.
  - congruence.
Qed.

Lemma SplitN2_lengths (path : string) :
  match SplitN2 path "." with
  | [key; rest] => len key + 1 + len rest = len path
  | [key] => key = path
  | _ => False
  end.
Proof.
  unfold SplitN2. destruct (Index path ".") as [i|] eqn:E; [|reflexivity].
  apply Index_bound in E. change (len ".") with 1 in *.
  rewrite len_take, len_drop by lia. lia.
Qed.

(** [evaluateStep] either answers by itself, or hands over to [self] with
    a strictly shorter path. *)
Lemma evaluateStep_cases (data : JSON) (path : string) :
  (exists r, r <> Err Exhausted /\ forall self, evaluateStep self data path = r) \/
  (exists data' path', len path' < len path /\
                       forall self, evaluateStep self data path = self data' path').
Proof.
  pose proof (len_stripRoot path) as Hroot.
  unfold evaluateStep. set (p := stripRoot path) in *.
  destruct (String.eqb p EmptyString) eqn:Hempty.
  { left. eexists. split; [|reflexivity]. discriminate. }
  apply eqb_empty_len in Hempty.
  destruct (HasPrefix p "[") eqn:Hbr.
  - destruct (Index p "]") as [endIdx|].
    2:{ left. eexists. split; [|reflexivity]. discriminate. }
    destruct (Atoi (slice 1 endIdx p)) as [idx|].
    2:{ left. eexists. split; [|reflexivity]. discriminate. }
    destruct data; try (left; eexists; split; [|reflexivity]; discriminate).
    destruct ((idx <? 0)%Z || (Z.of_nat (length elems) <=? idx)%Z).
    { left. eexists. split; [|reflexivity]. discriminate. }
    right. eexists. eexists. split; [|reflexivity].
    pose proof (len_TrimPrefix (drop (endIdx + 1) p) ".") as Ht.
    rewrite len_drop in Ht. lia.
  - pose proof (SplitN2_lengths p) as Hparts.
    destruct (Index (hd EmptyString (SplitN2 p ".")) "[") as [bracketIdx|] eqn:Hidx.
    + pose proof (key_bracket_positive p bracketIdx Hbr Hidx) as Hpos.
      pose proof (Index_bound _ _ _ Hidx) as Hb.
      destruct data; try (left; eexists; split; [|reflexivity]; discriminate).
      destruct (fields !! take bracketIdx (hd EmptyString (SplitN2 p "."))).
      2:{ left. eexists. split; [|reflexivity]. discriminate. }
      right. eexists. eexists. split; [|reflexivity].
      destruct (SplitN2 p ".") as [|key [|rest [|]]]; try contradiction; simpl hd in *.
      * subst key. rewrite len_drop. lia.
      * rewrite !len_append, len_drop. change (len ".") with 1. lia.
    + destruct data; try (left; eexists; split; [|reflexivity]; discriminate).
      destruct (fields !! hd EmptyString (SplitN2 p ".")).
      2:{ left. eexists. split; [|reflexivity]. discriminate. }
      destruct (SplitN2 p ".") as [|key [|rest [|]]]; try contradiction.
      * left. eexists. split; [|reflexivity]. discriminate.
      * right. eexists. eexists. split; [|reflexivity]. lia.
Qed.

Lemma evaluateDepth_enough (n m : nat) (data : JSON) (path : string) :
  len path < n -> len path < m ->
  evaluateDepth n data path = evaluateDepth m data path.
Proof.
  revert m data path; induction n as [|n IH]; intros m data path Hn Hm; [lia|].
  destruct m as [|m]; [lia|]. simpl.
  destruct (evaluateStep_cases data path) as [(r & _ & Hr) | (d' & p' & Hlt & Hs)].
  - now rewrite !Hr.
  - rewrite !Hs. apply IH; lia.
Qed.

(** [evaluatePath] satisfies the equation of the function of the source. *)
Lemma evaluatePath_unfold (data : JSON) (path : string) :
  evaluatePath data path = evaluateStep evaluatePath data path.
Proof.
  unfold evaluatePath at 1. simpl.
  destruct (evaluateStep_cases data path) as [(r & _ & Hr) | (d' & p' & Hlt & Hs)].
  - now rewrite !Hr.
  - rewrite !Hs. unfold evaluatePath. apply evaluateDepth_enough; lia.
Qed.

(** The depth given is never used up. *)
Lemma evaluatePath_not_exhausted (data : JSON) (path : string) :
  evaluatePath data path <> Err Exhausted.
Proof.
  remember (len path) as n eqn:Hn. revert data path Hn.
  induction n as [n IH] using lt_wf_ind. intros data path ->.
  rewrite evaluatePath_unfold.
  destruct (evaluateStep_cases data path) as [(r & Hne & Hr) | (d' & p' & Hlt & Hs)].
  - now rewrite Hr.
  - rewrite Hs. now apply (IH (len p')).
Qed.

End PathFacts.

Example evaluatePath_users_1_name :
  evaluatePath sampleUsers "users[1].name" = Ok (JString "Charlie").
Proof. vm_compute. reflexivity. Qed.

Example evaluatePath_permissions_5 :
  evaluatePath sampleUsers "permissions[5]" = Err (OutOfBounds 5).
Proof. vm_compute. reflexivity. Qed.

Example evaluatePath_root_again :
  evaluatePath sampleUsers "$.users[0].$.name" = Ok (JString "Bob").
Proof. vm_compute. reflexivity. Qed.



(** ** The assertion evaluator *)
Section CheckFacts.

Variable Unmarshal : string -> result string JSON.
Variable AtoiError : string -> string.
Variable FormatFloat : Z -> string.
Variable FormatComposite : JSON -> string.

(** Every branch of [Check] returns a nil error. *)
Lemma Check_error_nil (a : Assertion) (jsonOutput : string) :
  snd (Check Unmarshal AtoiError FormatFloat FormatComposite a jsonOutput) = None.
Proof.
  unfold Check.
  destruct (negb (String.eqb (Type_ a) "jsonpath")); [reflexivity|].
  destruct (EvaluateJSONPath Unmarshal FormatFloat FormatComposite jsonOutput (Key a));
    [|reflexivity].
  destruct (String.eqb (Operator a) "=="); [reflexivity|].
  destruct (String.eqb (Operator a) "!="); [reflexivity|].
  destruct (String.eqb (Operator a) "contains"); reflexivity.
Qed.

Lemma Check_jsonpath (a : Assertion) (jsonOutput : string) :
  Type_ a = "jsonpath" ->
  Check Unmarshal AtoiError FormatFloat FormatComposite a jsonOutput =
    match EvaluateJSONPath Unmarshal FormatFloat FormatComposite jsonOutput (Key a) with
    | Err err =>
        (mkResult false ("failed to evaluate jsonpath '" +:+ Key a +:+ "': "
                         +:+ EvalError_text AtoiError err), None)
    | Ok val =>
        if String.eqb (Operator a) "==" then
          (report a val (String.eqb val (Value a)), None)
        else if String.eqb (Operator a) "!=" then
          (report a val (negb (String.eqb val (Value a))), None)
        else if String.eqb (Operator a) "contains" then
          (report a val (Contains val (Value a)), None)
        else (mkResult false ("unknown operator '" +:+ Operator a +:+ "'"), None)
    end.
Proof. intros H. unfold Check. now rewrite H. Qed.

End CheckFacts.

(** A decoder that knows one document, for the examples. *)
Example Check_test_equals_mismatch :
  let decode := fun s : string =>
    if String.eqb s "id-123" then Ok (JObject {["id" := JString "123"]}) else Err "unexpected" in
  Check decode (fun s => s) (fun _ => EmptyString) (fun _ => EmptyString)
        (mkAssertion "jsonpath" "$.id" "==" "456") "id-123"
  = (mkResult false ("FAIL: jsonpath " +:+ dquote +:+ "$.id" +:+ dquote +:+ " == "
                     +:+ dquote +:+ "456" +:+ dquote
                     +:+ " (actual: " +:+ dquote +:+ "123" +:+ dquote +:+ ")"), None).
Proof. vm_compute. reflexivity. Qed.

(** C5 (as stated, refuted): an operator other than ==, != and contains
    does not always give pass = false with the message "unknown operator".
    With the operator "matches", an assertion of the kind "header" passes,
    with the warning about its kind, and an assertion of the kind
    "jsonpath" whose path does not evaluate fails with the message of the
    path; in both the operator is not looked at. *)
Lemma Check_operator_not_looked_at :
  let unmarshal := fun _ : string => Ok (JObject {["id" := JString "123"]}) in
  let check := Check unmarshal (fun s => s) (fun _ => EmptyString) (fun _ => EmptyString) in
  check (mkAssertion "header" "X" "matches" "1") "{}"
  = (mkResult true "Warning: skipping unknown assertion type 'header'", None) /\
  check (mkAssertion "jsonpath" "name" "matches" "1") "{}"
  = (mkResult false "failed to evaluate jsonpath 'name': key 'name' not found", None) /\
  Message (fst (check (mkAssertion "header" "X" "matches" "1") "{}"))
  <> "unknown operator 'matches'" /\
  Message (fst (check (mkAssertion "jsonpath" "name" "matches" "1") "{}"))
  <> "unknown operator 'matches'".
Proof.
  cbv zeta. repeat split; try (vm_compute; reflexivity); vm_compute; discriminate.
Qed.

(** C5 (amended): [Check] returns a nil error for every assertion and
    every response.  What goes wrong is in the result.  An assertion of a
    kind other than "jsonpath" passes with a warning, whatever its
    operator.  For an assertion of the kind "jsonpath": a path that does
    not evaluate gives pass = false with the message of the failure,
    whatever the operator; when the path evaluates, an operator other than
    ==, != and contains gives pass = false with the message
    "unknown operator '<operator>'", and one of these three that does not
    hold gives pass = false with a FAIL message. *)
Theorem Check_never_fails_hard (Unmarshal : string -> result string JSON)
    (AtoiError : string -> string) (FormatFloat : Z -> string)
    (FormatComposite : JSON -> string) (a : Assertion) (jsonOutput : string) :
  let check := Check Unmarshal AtoiError FormatFloat FormatComposite a jsonOutput in
  let evaluated := EvaluateJSONPath Unmarshal FormatFloat FormatComposite jsonOutput (Key a) in
  snd check = None /\
  (Type_ a <> "jsonpath" ->
   fst check = mkResult true ("Warning: skipping unknown assertion type '" +:+ Type_ a +:+ "'")) /\
  (Type_ a = "jsonpath" ->
   (forall err, evaluated = Err err ->
      fst check = mkResult false ("failed to evaluate jsonpath '" +:+ Key a +:+ "': "
                                  +:+ EvalError_text AtoiError err)) /\
   (forall val, evaluated = Ok val ->
      (Operator a <> "==" -> Operator a <> "!=" -> Operator a <> "contains" ->
       fst check = mkResult false ("unknown operator '" +:+ Operator a +:+ "'")) /\
      ((Operator a = "==" \/ Operator a = "!=" \/ Operator a = "contains") ->
       Pass (fst check) = false ->
       Message (fst check)
       = "FAIL: jsonpath " +:+ dquote +:+ Key a +:+ dquote +:+ " " +:+ Operator a +:+ " "
         +:+ dquote +:+ Value a +:+ dquote
         +:+ " (actual: " +:+ dquote +:+ val +:+ dquote +:+ ")"))).
Proof.
  cbv zeta. split; [apply Check_error_nil|]. split.
  { intros Htype. unfold Check. apply String.eqb_neq in Htype. now rewrite Htype. }
  intros Htype. rewrite (Check_jsonpath _ _ _ _ _ _ Htype).
  split.
  - intros err ->. reflexivity.
  - intros val ->. split.
    + intros H1 H2 H3. apply String.eqb_neq in H1, H2, H3. now rewrite H1, H2, H3.
    + intros Hop.
      assert (Hrep : forall pass, Pass (report a val pass) = false ->
                Message (report a val pass)
                = "FAIL: jsonpath " +:+ dquote +:+ Key a +:+ dquote +:+ " " +:+ Operator a +:+ " "
                  +:+ dquote +:+ Value a +:+ dquote
                  +:+ " (actual: " +:+ dquote +:+ val +:+ dquote +:+ ")").
      { intros pass Hp. simpl in Hp. subst pass. unfold report. simpl Message.
        clear. generalize (Key a) (Operator a) (Value a). intros k o v.
        rewrite !append_assoc. reflexivity. }
      destruct Hop as [Hop | [Hop | Hop]]; rewrite Hop; simpl; rewrite <- ?Hop; apply Hrep.
Qed.

Lemma Check_never_fails_hard_witness :
  fst (Check (fun _ => Ok (JObject {["id" := JString "123"]})) (fun s => s)
             (fun _ => EmptyString) (fun _ => EmptyString)
             (mkAssertion "jsonpath" "id" "matches" "1") "{}")
  = mkResult false ("unknown operator '" +:+ "matches" +:+ "'").
Proof.
  refine (proj1 (proj2 (proj2 (proj2 (Check_never_fails_hard
            (fun _ => Ok (JObject {["id" := JString "123"]})) (fun s => s)
            (fun _ => EmptyString) (fun _ => EmptyString)
            (mkAssertion "jsonpath" "id" "matches" "1") "{}")) _) "123" _) _ _ _).
  - reflexivity.
  - vm_compute. reflexivity.
  - discriminate.
  - discriminate.
  - discriminate.
Defined.

(** ** The run loop *)
Section RunFacts.

Variables MethodDesc ProtoMessage Response World : Type.
Variable FindMethod : string -> string -> result string MethodDesc.
Variable ListServices : list string.
Variable JSONToProto : string -> MethodDesc -> result string ProtoMessage.
Variable Call : World -> Grpc.Client -> Z -> MethodDesc -> ProtoMessage -> World * result string Response.
Variable ProtoToJSON : Response -> result string string.
Variable Unmarshal : string -> result string JSON.
Variable AtoiError : string -> string.
Variable FormatFloat : Z -> string.
Variable FormatComposite : JSON -> string.
Variable rangeOrder : gmap string string -> list (string * string).

Let dispatch' := dispatch FindMethod ListServices JSONToProto Call ProtoToJSON rangeOrder.
Let capture' := capture (World := World) Unmarshal AtoiError FormatFloat FormatComposite rangeOrder.
Let checkAll' := checkAll (World := World) Unmarshal AtoiError FormatFloat FormatComposite.
Let checkOne' := checkOne (World := World) Unmarshal AtoiError FormatFloat FormatComposite.
Let execute' := execute FindMethod ListServices JSONToProto Call ProtoToJSON
                        Unmarshal AtoiError FormatFloat FormatComposite rangeOrder.
Let runFrom' := runFrom FindMethod ListServices JSONToProto Call ProtoToJSON
                        Unmarshal AtoiError FormatFloat FormatComposite rangeOrder.
Let passes' := passes Unmarshal AtoiError FormatFloat FormatComposite.
Let assertLine' := assertLine Unmarshal AtoiError FormatFloat FormatComposite.

Lemma calls_print (text : string) (st : state World) : calls (print text st) = calls st.
Proof. reflexivity. Qed.

(** A request that gets its response has gone through the transport once;
    one that stops before or at the call has gone through it at most once. *)
Lemma dispatch_calls (i : nat) (reqFile : RequestFile) (st st' : state World) (jsonOutput : string) :
  dispatch' i reqFile st = (st', Ok jsonOutput) -> calls st' = S (calls st).
Proof.
  unfold dispatch', dispatch. intros H.
  repeat match type of H with
         | (let '(_, _) := ?x in _) = _ => destruct x eqn:?
         | match ?x with _ => _ end = _ => destruct x eqn:?
         end; try discriminate.
  injection H as <- _. simpl.
  destruct (0 <? i)%nat, (negb (String.eqb (Name reqFile) EmptyString)); reflexivity.
Qed.

Lemma capture_calls (reqFile : RequestFile) (jsonOutput : string) (st : state World) :
  calls (capture' reqFile jsonOutput st) = calls st.
Proof.
  unfold capture', capture. destruct (decide (size (Captures reqFile) = 0)); [reflexivity|].
  generalize (print (newline +:+ "# Captures:" +:+ newline) st) (calls_print (newline +:+ "# Captures:" +:+ newline) st).
  induction (rangeOrder (Captures reqFile)) as [|[varName path] entries IH]; intros st0 H0; simpl.
  - exact H0.
  - apply IH. unfold captureOne.
    destruct (EvaluateJSONPath Unmarshal FormatFloat FormatComposite jsonOutput path); exact H0.
Qed.

(** The loop over the assertions looks at each of them: it prints a line
    for each, and [allPassed] stays true when each of them passes. *)
Lemma checkOne_fold (jsonOutput : string) (asserts : list Assertion) (st : state World) (allPassed : bool) :
  fold_left (checkOne' jsonOutput) asserts (st, allPassed)
  = (mkState (variables st) (world st)
             (printed st ++ map (assertLine' jsonOutput) asserts) (calls st),
     allPassed && forallb (passes' jsonOutput) asserts).
Proof.
  revert st allPassed; induction asserts as [|a asserts IH]; intros st allPassed; simpl.
  - rewrite app_nil_r, andb_true_r. now destruct st.
  - pose proof (Check_error_nil Unmarshal AtoiError FormatFloat FormatComposite a jsonOutput) as Hnil.
    unfold passes' at 1, passes. unfold assertLine' at 1, assertLine.
    destruct (Check Unmarshal AtoiError FormatFloat FormatComposite a jsonOutput) as [res err].
    simpl in Hnil. subst err. rewrite IH. simpl.
    rewrite <- app_assoc. simpl.
    destruct (Pass res); [reflexivity | now rewrite andb_false_r].
Qed.

Lemma checkAll_result (reqFile : RequestFile) (jsonOutput : string) (st : state World) :
  exists st',
    checkAll' reqFile jsonOutput st
    = (st', if forallb (passes' jsonOutput) (Asserts reqFile) then None else Some AssertionsFailed) /\
    calls st' = calls st /\
    (Asserts reqFile <> [] ->
     printed st' = printed st ++ (newline +:+ "# Asserts:" +:+ newline)
                               :: map (assertLine' jsonOutput) (Asserts reqFile)).
Proof.
  unfold checkAll', checkAll. destruct (Asserts reqFile) as [|a asserts] eqn:Ha.
  - exists st. now repeat split.
  - fold checkOne'. rewrite checkOne_fold. cbn [andb].
    eexists. split; [|split].
    + destruct (forallb (passes' jsonOutput) (a :: asserts)); reflexivity.
    + reflexivity.
    + intros _. simpl. now rewrite <- app_assoc.
Qed.

Lemma runFrom_app (pre post : list RequestFile) (i : nat) (st : state World) :
  runFrom' i (pre ++ post) st =
    match runFrom' i pre st with
    | (st', Some e) => (st', Some e)
    | (st', None) => runFrom' (i + length pre) post st'
    end.
Proof.
  revert i st; induction pre as [|r pre IH]; intros i st; simpl.
  - now rewrite Nat.add_0_r.
  - fold execute'. destruct (execute' i r st) as [st1 [e|]]; [reflexivity|].
    fold runFrom'. rewrite IH. now replace (S i + length pre) with (i + S (length pre)) by lia.
Qed.

(** A request that leaves the loop running has made one call. *)
Lemma execute_calls (i : nat) (reqFile : RequestFile) (st st' : state World) :
  execute' i reqFile st = (st', None) -> calls st' = S (calls st).
Proof.
  unfold execute', execute. fold dispatch'.
  destruct (dispatch' i reqFile st) as [st1 [jsonOutput|e]] eqn:Hd; [|discriminate].
  fold capture' checkAll'.
  destruct (checkAll_result reqFile jsonOutput (capture' reqFile jsonOutput st1))
    as (st2 & -> & Hc & _).
  intros H. assert (st2 = st') by congruence. subst st2.
  rewrite Hc, capture_calls. exact (dispatch_calls _ _ _ _ _ Hd).
Qed.

Lemma runFrom_calls (requests : list RequestFile) (i : nat) (st st' : state World) :
  runFrom' i requests st = (st', None) -> calls st' = calls st + length requests.
Proof.
  revert i st; induction requests as [|r requests IH]; intros i st; simpl.
  - intros [= <-]. lia.
  - fold execute'. destruct (execute' i r st) as [st1 [e|]] eqn:He; [discriminate|].
    fold runFrom'. intros H. apply IH in H. apply execute_calls in He. lia.
Qed.

(** C4: when the requests before request k have run and request k has its
    response: if one of its assertions fails, all of its assertions are
    evaluated (a line is printed for each), the run ends with "one or
    more assertions failed", and the transport has been called k times,
    so that no later request is executed; if each of its assertions
    passes, the run goes on with the next request. *)
Theorem assertion_failure_stops_run (pre post : list RequestFile) (reqFile : RequestFile)
    (w : World) (st1 st2 : state World) (jsonOutput : string) :
  runFrom' 0 pre (start w) = (st1, None) ->
  dispatch' (length pre) reqFile st1 = (st2, Ok jsonOutput) ->
  let k := S (length pre) in
  let st3 := capture' reqFile jsonOutput st2 in
  let whole := run FindMethod ListServices JSONToProto Call ProtoToJSON
                   Unmarshal AtoiError FormatFloat FormatComposite rangeOrder
                   (pre ++ reqFile :: post) w in
  (Exists (fun a => passes' jsonOutput a = false) (Asserts reqFile) ->
   exists st', whole = (st', Some AssertionsFailed) /\
               calls st' = k /\
               printed st' = printed st3 ++ (newline +:+ "# Asserts:" +:+ newline)
                                         :: map (assertLine' jsonOutput) (Asserts reqFile)) /\
  (Forall (fun a => passes' jsonOutput a = true) (Asserts reqFile) ->
   exists st', execute' (length pre) reqFile st1 = (st', None) /\
               calls st' = k /\
               whole = runFrom' k post st').
Proof.
  intros Hpre Hd k st3 whole.
  assert (Hcalls1 : calls st1 = length pre).
  { apply runFrom_calls in Hpre. simpl in Hpre. exact Hpre. }
  pose proof (dispatch_calls _ _ _ _ _ Hd) as Hcalls2.
  assert (Hwhole : whole = match execute' (length pre) reqFile st1 with
                           | (st', Some e) => (st', Some e)
                           | (st', None) => runFrom' k post st'
                           end).
  { unfold whole, run. fold runFrom'. rewrite runFrom_app, Hpre. reflexivity. }
  assert (Hexec : execute' (length pre) reqFile st1 = checkAll' reqFile jsonOutput st3).
  { unfold execute', execute. fold dispatch'. now rewrite Hd. }
  destruct (checkAll_result reqFile jsonOutput st3) as (st' & Hcheck & Hc & Hp).
  assert (Hk : calls st' = k).
  { rewrite Hc. unfold st3. rewrite capture_calls. unfold k. congruence. }
  split.
  - intros Hfail.
    assert (Hall : forallb (passes' jsonOutput) (Asserts reqFile) = false).
    { apply not_true_is_false. intros Hall. rewrite forallb_forall in Hall.
      apply List.Exists_exists in Hfail as (a & Hin & Ha).
      specialize (Hall a Hin). congruence. }
    exists st'. rewrite Hwhole, Hexec, Hcheck, Hall. repeat split; [exact Hk|].
    apply Hp. intros Hnil. rewrite Hnil in Hfail. inversion Hfail.
  - intros Hpass.
    assert (Hall : forallb (passes' jsonOutput) (Asserts reqFile) = true).
    { apply forallb_forall. intros a Hin.
      rewrite List.Forall_forall in Hpass. now apply Hpass. }
    exists st'. rewrite Hwhole, Hexec, Hcheck, Hall. now repeat split.
Qed.

End RunFacts.

Lemma assertion_failure_stops_run_witness :
  let failing := statusRequest [mkAssertion "jsonpath" "status" "==" "inactive";
                                mkAssertion "jsonpath" "status" "!=" "unknown"] in
  let whole := run (fun _ _ => Ok tt) [] (fun s _ => Ok s) echoCall (fun r => Ok r)
                   activeStatus (fun s => s) (fun _ => EmptyString) (fun _ => EmptyString)
                   map_to_list ([] ++ failing :: [statusRequest []]) 0 in
  snd whole = Some AssertionsFailed /\ calls (fst whole) = 1 /\ world (fst whole) = 1.
Proof.
  cbv zeta.
  destruct (proj1 (assertion_failure_stops_run unit string string nat
              (fun _ _ => Ok tt) [] (fun s _ => Ok s) echoCall (fun r => Ok r)
              activeStatus (fun s => s) (fun _ => EmptyString) (fun _ => EmptyString)
              map_to_list [] [statusRequest []]
              (statusRequest [mkAssertion "jsonpath" "status" "==" "inactive";
                              mkAssertion "jsonpath" "status" "!=" "unknown"])
              0 (start 0)
              (mkState ∅ 1 ["# Request 1" +:+ newline;
                            "# example.Status/GetStatus" +:+ newline +:+ newline;
                            "{}" +:+ newline] 1)
              "{}" eq_refl ltac:(vm_compute; reflexivity))
            ltac:(apply Exists_cons_hd; vm_compute; reflexivity))
    as (st' & Hrun & Hcalls & _).
  rewrite Hrun. simpl. split; [reflexivity|]. split; [exact Hcalls|].
  apply (f_equal fst) in Hrun. simpl in Hrun. rewrite <- Hrun. vm_compute. reflexivity.
Defined.

(** * Further properties of the code *)

(** ** internal/assert/assert.go *)
Section CheckMore.

Variable Unmarshal : string -> result string JSON.
Variable AtoiError : string -> string.
Variable FormatFloat : Z -> string.
Variable FormatComposite : JSON -> string.

Lemma Index_empty (s : string) : Index s EmptyString = Some 0.
Proof. destruct s; reflexivity. Qed.

Lemma Contains_self (s : string) : Contains s s = true.
Proof.
  unfold Contains. destruct s as [|c s]; [reflexivity|].
  simpl. now rewrite Ascii.eqb_refl, HasPrefix_refl.
Qed.

(** X1: on a response whose path evaluates, == passes exactly when the
    value is the expected one and != exactly when it is not; when the path
    does not evaluate, both fail. *)
Theorem Check_eq_neq (key value jsonOutput : string) :
  let check op := fst (Check Unmarshal AtoiError FormatFloat FormatComposite
                             (mkAssertion "jsonpath" key op value) jsonOutput) in
  match EvaluateJSONPath Unmarshal FormatFloat FormatComposite jsonOutput key with
  | Ok val =>
      Pass (check "==") = String.eqb val value /\
      Pass (check "!=") = negb (Pass (check "=="))
  | Err _ => Pass (check "==") = false /\ Pass (check "!=") = false
  end.
Proof.
  cbv zeta. unfold Check. simpl.
  destruct (EvaluateJSONPath Unmarshal FormatFloat FormatComposite jsonOutput key);
    simpl; split; reflexivity.
Qed.

(** X2: the flag and the message of a result never disagree: the message
    begins with "PASS: " or "Warning: " when the assertion passes, and
    with neither when it fails. *)
Theorem Check_message_agrees (a : Assertion) (jsonOutput : string) :
  let res := fst (Check Unmarshal AtoiError FormatFloat FormatComposite a jsonOutput) in
  Pass res = HasPrefix (Message res) "PASS: " || HasPrefix (Message res) "Warning: ".
Proof.
  cbv zeta. unfold Check.
  destruct (negb (String.eqb (Type_ a) "jsonpath")); [reflexivity|].
  destruct (EvaluateJSONPath Unmarshal FormatFloat FormatComposite jsonOutput (Key a)) as [val|err];
    [|reflexivity].
  assert (Hrep : forall pass,
             Pass (report a val pass)
             = HasPrefix (Message (report a val pass)) "PASS: "
               || HasPrefix (Message (report a val pass)) "Warning: ").
  { intros [|]; reflexivity. }
  destruct (String.eqb (Operator a) "=="); [apply Hrep|].
  destruct (String.eqb (Operator a) "!="); [apply Hrep|].
  destruct (String.eqb (Operator a) "contains"); [apply Hrep | reflexivity].
Qed.

(** X3: on a response whose path evaluates, an assertion that passes with
    == passes with contains as well, and contains with an empty expected
    value always passes. *)
Theorem Check_contains_weaker (key value jsonOutput val : string) :
  EvaluateJSONPath Unmarshal FormatFloat FormatComposite jsonOutput key = Ok val ->
  let check op expected :=
    Pass (fst (Check Unmarshal AtoiError FormatFloat FormatComposite
                     (mkAssertion "jsonpath" key op expected) jsonOutput)) in
  (check "==" value = true -> check "contains" value = true) /\
  check "contains" EmptyString = true.
Proof.
  intros Heval. cbv zeta. unfold Check. simpl. rewrite Heval. simpl. split.
  - intros H. apply String.eqb_eq in H. subst value. apply Contains_self.
  - unfold Contains. now rewrite Index_empty.
Qed.

End CheckMore.

Lemma Check_contains_weaker_witness :
  Pass (fst (Check activeStatus (fun s => s) (fun _ => EmptyString) (fun _ => EmptyString)
                   (mkAssertion "jsonpath" "status" "contains" EmptyString) "{}")) = true.
Proof.
  refine (proj2 (Check_contains_weaker activeStatus (fun s => s) (fun _ => EmptyString)
                   (fun _ => EmptyString) "status" "active" "{}" "active" _)).
  vm_compute. reflexivity.
Defined.

(** ** cmd/run.go *)
Section AddressFacts.

Local Arguments Nat.eqb : simpl never.

Lemma thirdSlash_spec (s : string) (count i : nat) :
  count <= 2 ->
  match thirdSlash count i s with
  | Some j => exists k, j = i + k /\ k < len s /\ HasPrefix (drop k s) "/" = true /\
                        count + countSlash (take k s) = 2
  | None => count + countSlash s < 3
  end.
Proof.
  revert count i; induction s as [|c s IH]; intros count i Hc; simpl; [lia|].
  destruct (Ascii.eqb c "/") eqn:Ec.
  - destruct (Nat.eqb (S count) 3) eqn:E3.
    + apply Nat.eqb_eq in E3. exists 0. unfold len. simpl. rewrite Ec.
      repeat split; lia.
    + apply Nat.eqb_neq in E3. generalize (IH (S count) (S i) ltac:(lia)).
      destruct (thirdSlash (S count) (S i) s) as [j|]; intros IH'.
      * destruct IH' as (k & -> & Hk & Hp & Hn). exists (S k). unfold len in *. simpl.
        rewrite Ec. repeat split; [lia | lia | exact Hp | lia].
      * lia.
  - generalize (IH count (S i) Hc).
    destruct (thirdSlash count (S i) s) as [j|]; intros IH'.
    + destruct IH' as (k & -> & Hk & Hp & Hn). exists (S k). unfold len in *. simpl.
      rewrite Ec. repeat split; [lia | lia | exact Hp | lia].
    + lia.
Qed.

End AddressFacts.

(** X4: [parseAddressAndPrefix] cuts the address in two parts that put
    together are the address again.  With fewer than three slashes the
    prefix is empty and the address is kept whole; otherwise the cut is
    before the third slash: the first part has two slashes and the prefix
    begins with the third. *)
Theorem parseAddressAndPrefix_split (address : string) :
  let '(base, prefix) := parseAddressAndPrefix address in
  base +:+ prefix = address /\
  (countSlash address < 3 -> base = address /\ prefix = EmptyString) /\
  (3 <= countSlash address -> countSlash base = 2 /\ HasPrefix prefix "/" = true).
Proof.
  unfold parseAddressAndPrefix.
  generalize (thirdSlash_spec address 0 0 ltac:(lia)).
  destruct (thirdSlash 0 0 address) as [j|]; intros H.
  - destruct H as (k & -> & Hk & Hp & Hn). simpl in *.
    assert (Hsplit : countSlash address = countSlash (take k address) + countSlash (drop k address)).
    { clear. revert k; induction address as [|c s IH]; intros [|k]; simpl; try reflexivity.
      rewrite (IH k). lia. }
    assert (Hd : 1 <= countSlash (drop k address)).
    { destruct (drop k address) as [|c d]; [discriminate|].
      unfold HasPrefix in Hp. rewrite andb_true_r in Hp. simpl. rewrite Hp. lia. }
    split; [apply take_drop|]. split; [lia|]. intros _. now split.
  - split; [apply append_empty_r|]. split; [now split | lia].
Qed.

Section RunMore.

Variables MethodDesc ProtoMessage Response World : Type.
Variable FindMethod : string -> string -> result string MethodDesc.
Variable ListServices : list string.
Variable JSONToProto : string -> MethodDesc -> result string ProtoMessage.
Variable Call : World -> Grpc.Client -> Z -> MethodDesc -> ProtoMessage -> World * result string Response.
Variable ProtoToJSON : Response -> result string string.
Variable Unmarshal : string -> result string JSON.
Variable AtoiError : string -> string.
Variable FormatFloat : Z -> string.
Variable FormatComposite : JSON -> string.
Variable rangeOrder : gmap string string -> list (string * string).

Let dispatch' := dispatch FindMethod ListServices JSONToProto Call ProtoToJSON rangeOrder.
Let captureOne' := captureOne (World := World) Unmarshal AtoiError FormatFloat FormatComposite.
Let capture' := capture (World := World) Unmarshal AtoiError FormatFloat FormatComposite rangeOrder.
Let checkAll' := checkAll (World := World) Unmarshal AtoiError FormatFloat FormatComposite.
Let execute' := execute FindMethod ListServices JSONToProto Call ProtoToJSON
                        Unmarshal AtoiError FormatFloat FormatComposite rangeOrder.
Let runFrom' := runFrom FindMethod ListServices JSONToProto Call ProtoToJSON
                        Unmarshal AtoiError FormatFloat FormatComposite rangeOrder.
Let evaluate' := EvaluateJSONPath Unmarshal FormatFloat FormatComposite.

(** What [dispatch] does to the state, by the way it ends. *)
Lemma dispatch_effect (i : nat) (reqFile : RequestFile) (st : state World) :
  variables (fst (dispatch' i reqFile st)) = variables st /\
  match snd (dispatch' i reqFile st) with
  | Ok _ | Err (CallFailed _) | Err (FormatFailed _) =>
      calls (fst (dispatch' i reqFile st)) = S (calls st)
  | Err (MethodNotFound _ _) | Err (InvalidProtocol _) | Err (InvalidInput _) =>
      calls (fst (dispatch' i reqFile st)) = calls st /\
      world (fst (dispatch' i reqFile st)) = world st
  | Err AssertionsFailed => False
  end.
Proof.
  unfold dispatch', dispatch.
  destruct (FindMethod (Service reqFile) (Method reqFile)) as [methodDesc|cause].
  2:{ simpl. destruct (0 <? i)%nat, (negb (String.eqb (Name reqFile) EmptyString)); now simpl. }
  destruct (Grpc.ParseProtocol (File.Protocol reqFile)) as [proto|].
  2:{ simpl. destruct (0 <? i)%nat, (negb (String.eqb (Name reqFile) EmptyString)); now simpl. }
  destruct (parseAddressAndPrefix _) as [address prefix].
  destruct (JSONToProto _ methodDesc) as [inputMsg|cause].
  2:{ simpl. destruct (0 <? i)%nat, (negb (String.eqb (Name reqFile) EmptyString)); now simpl. }
  destruct (Call _ _ _ _ _) as [w [response|cause]].
  2:{ simpl. destruct (0 <? i)%nat, (negb (String.eqb (Name reqFile) EmptyString)); now simpl. }
  destruct (ProtoToJSON response) as [jsonOutput|cause]; simpl;
    destruct (0 <? i)%nat, (negb (String.eqb (Name reqFile) EmptyString)); now simpl.
Qed.

Lemma captureOne_effect (jsonOutput : string) (st : state World) (entry : string * string) :
  let st' := captureOne' jsonOutput st entry in
  calls st' = calls st /\ world st' = world st /\
  variables st' = match evaluate' jsonOutput entry.2 with
                  | Ok val => <[entry.1 := val]> (variables st)
                  | Err _ => variables st
                  end.
Proof.
  destruct entry as [varName path]. cbv zeta. unfold captureOne', captureOne, evaluate'. simpl.
  destruct (EvaluateJSONPath Unmarshal FormatFloat FormatComposite jsonOutput path); now simpl.
Qed.

Lemma checkAll_variables (reqFile : RequestFile) (jsonOutput : string) (st : state World) :
  variables (fst (checkAll' reqFile jsonOutput st)) = variables st.
Proof.
  unfold checkAll', checkAll. destruct (Asserts reqFile) as [|a asserts]; [reflexivity|].
  rewrite (checkOne_fold World Unmarshal AtoiError FormatFloat FormatComposite). cbn [andb].
  destruct (forallb _ _); reflexivity.
Qed.

(** The store after the loop over the captures, entry by entry: the
    entries of [entries] have distinct names. *)
Lemma capture_fold (jsonOutput : string) (entries : list (string * string)) (st : state World)
    (name : string) :
  NoDup entries.*1 ->
  variables (fold_left (captureOne' jsonOutput) entries st) !! name
  = match (list_to_map entries : gmap string string) !! name with
    | Some path =>
        match evaluate' jsonOutput path with
        | Ok val => Some val
        | Err _ => variables st !! name
        end
    | None => variables st !! name
    end.
Proof.
  revert st; induction entries as [|[varName path] entries IH]; intros st Hnd.
  - simpl. now rewrite lookup_empty.
  - change (variables (fold_left (captureOne' jsonOutput) entries
                                 (captureOne' jsonOutput st (varName, path))) !! name
            = match (<[varName := path]> (list_to_map entries) : gmap string string) !! name with
              | Some path =>
                  match evaluate' jsonOutput path with
                  | Ok val => Some val
                  | Err _ => variables st !! name
                  end
              | None => variables st !! name
              end).
    inversion Hnd as [|? ? Hnotin Hnd']; subst.
    rewrite IH by assumption.
    destruct (captureOne_effect jsonOutput st (varName, path)) as (_ & _ & Hv).
    cbn [fst snd] in Hv.
    destruct (decide (name = varName)) as [->|Hne].
    + rewrite lookup_insert_eq.
      assert ((list_to_map entries : gmap string string) !! varName = None) as ->
          by now apply not_elem_of_list_to_map_1.
      rewrite Hv. destruct (evaluate' jsonOutput path); [apply lookup_insert_eq | reflexivity].
    + rewrite lookup_insert_ne by congruence.
      assert (Hsame : variables (captureOne' jsonOutput st (varName, path)) !! name
                      = variables st !! name).
      { rewrite Hv. destruct (evaluate' jsonOutput path); [|reflexivity].
        now rewrite lookup_insert_ne by congruence. }
      now rewrite Hsame.
Qed.

(** X5: a request that fails before its response is in ends the run with
    that error: none of its captures or assertions is looked at, no later
    request is executed and the variable store is as it was.  When the
    method is not found, the protocol is not valid or the body does not
    convert, the transport has not been called. *)
Theorem failed_request_ends_run (i : nat) (reqFile : RequestFile) (post : list RequestFile)
    (st st' : state World) (e : RunError) :
  dispatch' i reqFile st = (st', Err e) ->
  runFrom' i (reqFile :: post) st = (st', Some e) /\
  variables st' = variables st /\
  match e with
  | MethodNotFound _ _ | InvalidProtocol _ | InvalidInput _ =>
      calls st' = calls st /\ world st' = world st
  | CallFailed _ | FormatFailed _ => calls st' = S (calls st)
  | AssertionsFailed => False
  end.
Proof.
  intros Hd. pose proof (dispatch_effect i reqFile st) as [Hv He].
  rewrite Hd in Hv, He. simpl in Hv, He. split; [|split; [exact Hv | exact He]].
  unfold runFrom', runFrom, execute. fold dispatch'. now rewrite Hd.
Qed.

Lemma capture_fold_dom (jsonOutput : string) (entries : list (string * string)) (st : state World) :
  dom (variables st) ⊆ dom (variables (fold_left (captureOne' jsonOutput) entries st)).
Proof.
  revert st; induction entries as [|entry entries IH]; intros st; [reflexivity|].
  change (dom (variables st)
          ⊆ dom (variables (fold_left (captureOne' jsonOutput) entries
                                      (captureOne' jsonOutput st entry)))).
  etransitivity; [|apply IH].
  destruct (captureOne_effect jsonOutput st entry) as (_ & _ & ->).
  destruct (evaluate' jsonOutput entry.2); [|reflexivity].
  rewrite dom_insert_L. set_solver.
Qed.

Lemma execute_dom (i : nat) (reqFile : RequestFile) (st : state World) :
  dom (variables st) ⊆ dom (variables (fst (execute' i reqFile st))).
Proof.
  unfold execute', execute. fold dispatch'.
  pose proof (dispatch_effect i reqFile st) as [Hv _].
  destruct (dispatch' i reqFile st) as [st1 [jsonOutput|e]]; simpl in Hv |- *.
  - fold capture' checkAll'. rewrite checkAll_variables, <- Hv.
    unfold capture', capture. destruct (decide (size (Captures reqFile) = 0)); [reflexivity|].
    fold captureOne'.
    exact (capture_fold_dom jsonOutput _ (print (newline +:+ "# Captures:" +:+ newline) st1)).
  - now rewrite Hv.
Qed.

(** X6: a variable that is in the store stays in it to the end of the run,
    however the run ends; a capture may only give it a new value. *)
Theorem variables_persist (requests : list RequestFile) (i : nat) (st : state World) :
  dom (variables st) ⊆ dom (variables (fst (runFrom' i requests st))).
Proof.
  revert i st; induction requests as [|reqFile requests IH]; intros i st; [reflexivity|].
  simpl. fold execute'. pose proof (execute_dom i reqFile st) as Hdom.
  destruct (execute' i reqFile st) as [st1 [e|]]; [exact Hdom|].
  etransitivity; [exact Hdom|]. apply IH.
Qed.

(** X7: when the loop over the captures visits each entry once, the store
    after it holds, under each capture name whose path evaluates on the
    response, the value found; a name whose path does not evaluate and
    every other variable keep what they had. *)
Theorem capture_stores (reqFile : RequestFile) (jsonOutput : string) (st : state World)
    (name : string) :
  rangeOrder (Captures reqFile) ≡ₚ map_to_list (Captures reqFile) ->
  variables (capture' reqFile jsonOutput st) !! name
  = match Captures reqFile !! name with
    | Some path =>
        match evaluate' jsonOutput path with
        | Ok val => Some val
        | Err _ => variables st !! name
        end
    | None => variables st !! name
    end.
Proof.
  intros Hperm. unfold capture', capture.
  destruct (decide (size (Captures reqFile) = 0)) as [Hz|Hnz].
  - apply map_size_empty_iff in Hz. rewrite Hz. now rewrite lookup_empty.
  - assert (Hnd : NoDup (rangeOrder (Captures reqFile)).*1).
    { rewrite Hperm. apply NoDup_fst_map_to_list. }
    fold captureOne'. rewrite capture_fold by exact Hnd.
    rewrite (list_to_map_proper _ _ Hnd Hperm), list_to_map_to_list. reflexivity.
Qed.

Lemma execute_calls_le (i : nat) (reqFile : RequestFile) (st : state World) :
  calls (fst (execute' i reqFile st)) <= S (calls st).
Proof.
  unfold execute', execute. fold dispatch'.
  pose proof (dispatch_effect i reqFile st) as [_ He].
  destruct (dispatch' i reqFile st) as [st1 [jsonOutput|e]]; simpl in He |- *.
  - destruct (checkAll_result World Unmarshal AtoiError FormatFloat FormatComposite reqFile
                jsonOutput (capture' reqFile jsonOutput st1)) as (st2 & Hc & Hcalls & _).
    fold checkAll' in Hc. fold capture'. fold checkAll'. rewrite Hc. simpl. rewrite Hcalls.
    unfold capture'. rewrite capture_calls. lia.
  - destruct e; try lia; destruct He; lia.
Qed.

(** X8: the transport is called at most once for each request of the run,
    and exactly once for each when the run succeeds. *)
Theorem calls_bounded (requests : list RequestFile) (i : nat) (st : state World) :
  calls (fst (runFrom' i requests st)) <= calls st + length requests /\
  (snd (runFrom' i requests st) = None ->
   calls (fst (runFrom' i requests st)) = calls st + length requests).
Proof.
  split.
  - revert i st; induction requests as [|reqFile requests IH]; intros i st; simpl; [lia|].
    fold execute'. pose proof (execute_calls_le i reqFile st) as Hle.
    destruct (execute' i reqFile st) as [st1 [e|]]; simpl in Hle |- *; [lia|].
    fold runFrom'. specialize (IH (S i) st1). lia.
  - intros Hok. destruct (runFrom' i requests st) as [st' res] eqn:Hrun. simpl in Hok. subst res.
    simpl. exact (runFrom_calls _ _ _ _ _ _ _ _ _ _ _ _ _ _ _ _ _ _ Hrun).
Qed.

End RunMore.

Lemma failed_request_ends_run_witness :
  let whole := runFrom (fun _ _ => Ok tt) [] (fun s _ => Ok s) echoCall (fun r => Ok r)
                       activeStatus (fun s => s) (fun _ => EmptyString) (fun _ => EmptyString)
                       map_to_list 0
                       [setProtocol "soap" (statusRequest []); statusRequest []] (start 0) in
  snd whole = Some (InvalidProtocol "soap") /\ calls (fst whole) = 0 /\ world (fst whole) = 0.
Proof.
  cbv zeta.
  destruct (failed_request_ends_run unit string string nat
              (fun _ _ => Ok tt) [] (fun s _ => Ok s) echoCall (fun r => Ok r)
              activeStatus (fun s => s) (fun _ => EmptyString) (fun _ => EmptyString)
              map_to_list 0 (setProtocol "soap" (statusRequest [])) [statusRequest []]
              (start 0)
              (mkState ∅ 0 ["# Request 1" +:+ newline;
                            "# example.Status/GetStatus" +:+ newline +:+ newline] 0)
              (InvalidProtocol "soap") ltac:(vm_compute; reflexivity))
    as (Hrun & _ & Hcalls & Hworld).
  rewrite Hrun. simpl in *. now repeat split.
Defined.

Lemma capture_stores_witness :
  variables (capture activeStatus (fun s => s) (fun _ => EmptyString) (fun _ => EmptyString)
                     map_to_list (setCaptures {["id" := "status"]} (statusRequest []))
                     "{}" (start 0)) !! "id" = Some "active".
Proof.
  rewrite (capture_stores nat activeStatus (fun s => s) (fun _ => EmptyString)
             (fun _ => EmptyString) map_to_list
             (setCaptures {["id" := "status"]} (statusRequest [])) "{}" (start 0) "id"
             ltac:(reflexivity)).
  simpl. rewrite lookup_singleton_eq. vm_compute. reflexivity.
Defined.

(** ** internal/file/parser.go *)
Section ParserMore.

Local Arguments HasPrefix : simpl never.
Local Arguments TrimSpace : simpl never.
Local Arguments String.eqb : simpl never.

Variable ParseDuration : string -> result string Z.

Ltac branch_cases H :=
  repeat match type of H with
         | (if ?b then _ else _) = _ => destruct b eqn:?
         | match ?x with _ => _ end = _ => destruct x eqn:?
         end.

Lemma parseField_error (key value : string) (r : RequestFile) (e : ParseError) :
  parseField ParseDuration key value r = Err e ->
  key = "Timeout" /\ exists cause, ParseDuration value = Err cause /\ e = InvalidTimeout value cause.
Proof.
  unfold parseField. intros H. branch_cases H; try discriminate.
  injection H as <-. split; [now apply String.eqb_eq | eauto].
Qed.

Lemma parseLine_error (st : parser) (line : string) (e : ParseError) :
  parseLine ParseDuration st line = Err e ->
  currentSection st = InHeader /\ fieldKey line = Some "Timeout" /\
  exists value cause, ParseDuration value = Err cause /\ e = InvalidTimeout value cause.
Proof.
  unfold parseLine, fieldKey. intros H.
  branch_cases H; try discriminate; injection H as <-.
  match goal with
  | Hf : parseField _ _ _ _ = Err _ |- _ =>
      apply parseField_error in Hf as (Hk & cause & Hc & ->)
  end.
  split; [reflexivity|]. split; [now rewrite Hk | eauto].
Qed.

(** X9: the lines of a segment fail to parse only at a [Timeout:] line of
    the main section whose duration does not parse; once the body or a
    block has started, no line fails. *)
Theorem parse_error_is_timeout (lines : list string) (st : parser) (e : ParseError) :
  parseLines ParseDuration st lines = Err e ->
  currentSection st = InHeader /\
  exists line value cause,
    In line lines /\ fieldKey line = Some "Timeout" /\
    ParseDuration value = Err cause /\ e = InvalidTimeout value cause.
Proof.
  revert st; induction lines as [|line lines IH]; intros st; simpl; [discriminate|].
  destruct (parseLine ParseDuration st line) as [st1|e1] eqn:Hstep.
  - intros Hrun. destruct (IH st1 Hrun) as (Hsec1 & l & value & cause & Hin & Hk & Hc & He).
    split.
    + exact (proj1 (parseLine_header_back ParseDuration st st1 line Hstep Hsec1)).
    + exists l, value, cause. auto.
  - intros [= <-]. destruct (parseLine_error st line e1 Hstep) as (Hsec & Hk & value & cause & Hc & He).
    split; [exact Hsec|]. exists line, value, cause. auto.
Qed.

Lemma parseField_Headers (key value : string) (r r' : RequestFile) (k : string) :
  parseField ParseDuration key value r = Ok r' ->
  In k reservedKeys -> Headers r !! k = None -> Headers r' !! k = None.
Proof.
  unfold parseField. intros H Hin Hnone.
  branch_cases H; try discriminate; injection H as <-; simpl; try exact Hnone.
  rewrite lookup_insert_ne; [exact Hnone|]. intros ->.
  simpl in Hin. destruct Hin as [<-|[<-|[<-|[<-|[]]]]]; discriminate.
Qed.

Lemma parseLine_Headers (st st' : parser) (line k : string) :
  parseLine ParseDuration st line = Ok st' ->
  In k reservedKeys -> Headers (req st) !! k = None -> Headers (req st') !! k = None.
Proof.
  unfold parseLine. intros H Hin Hnone.
  branch_cases H; try discriminate; injection H as <-; simpl; try exact Hnone.
  eapply parseField_Headers; eassumption.
Qed.

(** X10: the keys Service, Method, Protocol and Timeout are never headers
    of a parsed request. *)
Theorem reserved_keys_not_headers (lines : list string) (requestNum : nat) (r : RequestFile)
    (k : string) :
  parseContent ParseDuration lines requestNum = Ok r ->
  In k reservedKeys -> Headers r !! k = None.
Proof.
  unfold parseContent. intros H Hin.
  destruct (parseLines ParseDuration initial lines) as [st|] eqn:Hrun; [|discriminate].
  apply finish_Ok in H. subst r. simpl.
  assert (Hinv : forall ls st0 st1, parseLines ParseDuration st0 ls = Ok st1 ->
                   Headers (req st0) !! k = None -> Headers (req st1) !! k = None).
  { induction ls as [|l ls IH]; intros st0 st1; simpl.
    - now intros [= <-].
    - destruct (parseLine ParseDuration st0 l) as [st2|] eqn:E; [|discriminate].
      intros Hr Hn. apply (IH st2 st1 Hr). eapply parseLine_Headers; eassumption. }
  apply (Hinv lines initial st Hrun). apply lookup_empty.
Qed.

Lemma parseLine_Name (st st' : parser) (line : string) :
  parseLine ParseDuration st line = Ok st' ->
  Name (req st')
  = if String.eqb (Name (req st)) EmptyString && isComment line then commentText line
    else Name (req st).
Proof.
  unfold parseLine, isComment, commentText. intros H.
  destruct (section_eqb (currentSection st) InHeader && String.eqb (TrimSpace line) EmptyString)
    eqn:Hblank.
  { injection H as <-. apply andb_true_iff in Hblank as [_ Hb]. apply String.eqb_eq in Hb.
    rewrite Hb. now rewrite andb_false_r. }
  destruct (HasPrefix (TrimSpace line) "#") eqn:Hc.
  { rewrite andb_true_r. destruct (String.eqb (Name (req st)) EmptyString);
      injection H as <-; reflexivity. }
  rewrite andb_false_r.
  assert (Hfield : forall key value r, parseField ParseDuration key value (req st) = Ok r ->
                                       Name r = Name (req st)).
  { unfold parseField. intros key value r Hf.
    branch_cases Hf; try discriminate; now injection Hf as <-. }
  branch_cases H; try discriminate; injection H as <-; simpl; try reflexivity.
  eapply Hfield; eassumption.
Qed.

(** X11: the name of a parsed request is the text of the first comment of
    the segment that has a text, wherever that comment stands: in the main
    section, in the body or in a block. *)
Theorem name_is_first_comment (lines : list string) (requestNum : nat) (r : RequestFile) :
  parseContent ParseDuration lines requestNum = Ok r ->
  Name r = firstCommentText lines.
Proof.
  unfold parseContent.
  destruct (parseLines ParseDuration initial lines) as [st|] eqn:Hrun; [|discriminate].
  intros H. apply finish_Ok in H. subst r. simpl.
  assert (Hinv : forall ls st0 st1, parseLines ParseDuration st0 ls = Ok st1 ->
                   Name (req st1) = if String.eqb (Name (req st0)) EmptyString
                                    then firstCommentText ls else Name (req st0)).
  { induction ls as [|l ls IH]; intros st0 st1; simpl.
    - intros [= <-]. destruct (String.eqb (Name (req st0)) EmptyString) eqn:E; [|reflexivity].
      now apply String.eqb_eq in E.
    - destruct (parseLine ParseDuration st0 l) as [st2|] eqn:E; [|discriminate].
      intros Hr. rewrite (IH st2 st1 Hr), (parseLine_Name st0 st2 l E).
      destruct (String.eqb (Name (req st0)) EmptyString) eqn:E0; simpl.
      + destruct (isComment l); simpl; [|now rewrite E0].
        destruct (String.eqb (commentText l) EmptyString); reflexivity.
      + now rewrite E0. }
  rewrite (Hinv lines initial st Hrun). reflexivity.
Qed.

Lemma parseLine_block_fields (st st' : parser) (line : string) :
  afterBody (currentSection st) ->
  parseLine ParseDuration st line = Ok st' ->
  Address (req st') = Address (req st) /\ Service (req st') = Service (req st) /\
  Method (req st') = Method (req st) /\ File.Protocol (req st') = File.Protocol (req st) /\
  Timeout (req st') = Timeout (req st) /\ Headers (req st') = Headers (req st).
Proof.
  unfold parseLine. intros Hsec H.
  destruct Hsec as [Hs|Hs]; rewrite Hs in H; cbn [section_eqb andb] in H;
    branch_cases H; try discriminate; injection H as <-; now simpl.
Qed.

(** X12: once the Captures or the Asserts block has started, every line
    parses and none changes the address, the service, the method, the
    protocol, the timeout, the headers or the body: a [Service:] line
    below a marker is not a field of the request. *)
Theorem fields_frozen_in_blocks (lines : list string) (st : parser) :
  afterBody (currentSection st) ->
  exists st', parseLines ParseDuration st lines = Ok st' /\
    Address (req st') = Address (req st) /\ Service (req st') = Service (req st) /\
    Method (req st') = Method (req st) /\ File.Protocol (req st') = File.Protocol (req st) /\
    Timeout (req st') = Timeout (req st) /\ Headers (req st') = Headers (req st) /\
    bodyLines st' = bodyLines st.
Proof.
  revert st; induction lines as [|line lines IH]; intros st Hsec; simpl.
  - exists st. now repeat split.
  - destruct (parseLine_after_body ParseDuration st line Hsec) as (st1 & Hstep & Hsec1 & Hb1).
    rewrite Hstep.
    destruct (parseLine_block_fields st st1 line Hsec Hstep) as (H1 & H2 & H3 & H4 & H5 & H6).
    destruct (IH st1 Hsec1) as (st' & Hrun & K1 & K2 & K3 & K4 & K5 & K6 & K7).
    exists st'. repeat split; congruence.
Qed.

Lemma parseLine_asserts (st : parser) (line : string) :
  currentSection st = InAsserts ->
  isComment line = false -> isMarker line = false ->
  exists st', parseLine ParseDuration st line = Ok st' /\
    currentSection st' = InAsserts /\
    Asserts (req st') = Asserts (req st) ++ option_list (parseAssertion (TrimSpace line)).
Proof.
  unfold isComment, isMarker. intros Hsec Hc Hm. apply orb_false_iff in Hm as [Hm1 Hm2].
  unfold parseLine. rewrite Hsec, Hc, Hm1, Hm2. cbn [section_eqb andb].
  destruct (String.eqb (TrimSpace line) EmptyString) eqn:Hb.
  - apply String.eqb_eq in Hb. rewrite Hb. exists st.
    repeat split; [exact Hsec|]. change (parseAssertion EmptyString) with (@None Assertion).
    simpl. now rewrite app_nil_r.
  - destruct (parseAssertion (TrimSpace line)) as [a|]; eexists; (split; [reflexivity|]);
      simpl; split; try exact Hsec; try reflexivity. now rewrite app_nil_r.
Qed.

(** X13: in the Asserts block, lines that are neither comments nor markers
    add their assertions in the order of the lines; a line that does not
    parse as an assertion is passed over without an error. *)
Theorem asserts_in_order (lines : list string) (st : parser) :
  currentSection st = InAsserts ->
  Forall (fun line => isComment line = false /\ isMarker line = false) lines ->
  exists st', parseLines ParseDuration st lines = Ok st' /\
    Asserts (req st')
    = Asserts (req st) ++ omap (fun line => parseAssertion (TrimSpace line)) lines.
Proof.
  revert st; induction lines as [|line lines IH]; intros st Hsec Hall; simpl.
  - exists st. now rewrite app_nil_r.
  - inversion Hall as [|? ? [Hc Hm] Hall']; subst.
    destruct (parseLine_asserts st line Hsec Hc Hm) as (st1 & -> & Hsec1 & Ha1).
    destruct (IH st1 Hsec1 Hall') as (st' & Hrun & Ha').
    exists st'. split; [exact Hrun|]. rewrite Ha', Ha1, <- app_assoc. f_equal.
    destruct (parseAssertion (TrimSpace line)); reflexivity.
Qed.

Lemma concat_segments (lines : list string) :
  concat (segments lines) = List.filter (fun line => negb (isSeparator line)) lines.
Proof.
  induction lines as [|line lines IH]; [reflexivity|]. simpl.
  destruct (isSeparator line); simpl; [exact IH|].
  destruct (segments lines) as [|seg segs]; simpl in *; now rewrite <- IH.
Qed.

Lemma concat_nonEmpty (segs : list (list string)) :
  concat (List.filter nonEmpty segs) = concat segs.
Proof.
  induction segs as [|[|l seg] segs IH]; simpl; [reflexivity | exact IH | now rewrite IH].
Qed.

Lemma segments_no_separator (lines : list string) :
  Forall (Forall (fun line => isSeparator line = false)) (segments lines).
Proof.
  induction lines as [|line lines IH]; simpl; [repeat constructor|].
  destruct (isSeparator line) eqn:E; [constructor; [constructor | exact IH]|].
  destruct (segments lines) as [|seg segs]; [repeat constructor; exact E|].
  inversion IH; subst. constructor; [constructor|]; assumption.
Qed.

(** X14: the sections [ParseMultiple] parses are, put end to end, the
    lines of the document without its separator lines: no line is lost,
    doubled or moved; and no section is empty or holds a separator. *)
Theorem scanSections_keeps_lines (lines : list string) :
  concat (scanSections lines) = List.filter (fun line => negb (isSeparator line)) lines /\
  Forall (fun sec => sec <> [] /\ Forall (fun line => isSeparator line = false) sec)
         (scanSections lines).
Proof.
  rewrite scanSections_segments. split.
  - now rewrite concat_nonEmpty, concat_segments.
  - pose proof (segments_no_separator lines) as H.
    induction (segments lines) as [|[|l seg] segs IH]; simpl.
    + constructor.
    + inversion H; subst. now apply IH.
    + inversion H; subst. constructor; [split; [discriminate | assumption]|]. now apply IH.
Qed.

(** X15: [ParseMultiple] never returns an empty list, so that [Parse]
    returns the first of its requests whenever it succeeds, and fails with
    its error whenever it fails, be it on a later segment or on the file
    itself. *)
Theorem Parse_first (Open : string -> result string Scan) (path : string) :
  match ParseMultiple ParseDuration Open path with
  | Ok requests => exists r rest, requests = r :: rest /\ Parse ParseDuration Open path = Ok r
  | Err e => Parse ParseDuration Open path = Err e
  end.
Proof.
  unfold Parse.
  destruct (ParseMultiple ParseDuration Open path) as [requests|e] eqn:Hp; [|reflexivity].
  unfold ParseMultiple in Hp.
  destruct (Open path) as [[lines [cause|]]|cause]; try discriminate.
  simpl in Hp.
  destruct (scanSections lines) as [|sec secs]; [discriminate|].
  pose proof (parseSections_result ParseDuration (sec :: secs) 0) as H.
  rewrite Hp in H. inversion H; subst. eauto.
Qed.

End ParserMore.

Lemma parse_error_is_timeout_witness :
  currentSection initial = InHeader /\
  exists line value cause,
    In line ["GRPC http://localhost:8080"; "Timeout: soon"; "{}"] /\
    fieldKey line = Some "Timeout" /\
    parseDuration5s value = Err cause /\
    InvalidTimeout "soon" "time: invalid duration" = InvalidTimeout value cause.
Proof.
  apply (parse_error_is_timeout parseDuration5s
           ["GRPC http://localhost:8080"; "Timeout: soon"; "{}"] initial
           (InvalidTimeout "soon" "time: invalid duration")).
  reflexivity.
Defined.

Lemma reserved_keys_not_headers_witness :
  exists r, parseContent parseDuration5s
              ["GRPC http://localhost:8080"; "Service: example.Service";
               "Method: DoSomething"; "Authorization: Bearer token"] 1 = Ok r /\
            Headers r !! "Service" = None.
Proof.
  eexists. split; [reflexivity|].
  apply (reserved_keys_not_headers parseDuration5s
           ["GRPC http://localhost:8080"; "Service: example.Service";
            "Method: DoSomething"; "Authorization: Bearer token"] 1).
  - reflexivity.
  - simpl. auto.
Defined.

Lemma name_is_first_comment_witness :
  exists r, parseContent parseDuration5s
              ["GRPC http://localhost:8080"; "Service: svc"; "Method: method";
               "{}"; "#"; "[Asserts]"; "  # Login  "] 1 = Ok r /\
            Name r = "Login".
Proof.
  eexists. split; [reflexivity|].
  apply (name_is_first_comment parseDuration5s
           ["GRPC http://localhost:8080"; "Service: svc"; "Method: method";
            "{}"; "#"; "[Asserts]"; "  # Login  "] 1).
  reflexivity.
Defined.

Lemma fields_frozen_in_blocks_witness :
  exists st', parseLines parseDuration5s (setSection InCaptures initial)
                ["Service: late"; "Timeout: soon"; "{"] = Ok st' /\
    Address (req st') = EmptyString /\ Service (req st') = EmptyString /\
    Method (req st') = EmptyString /\ File.Protocol (req st') = "grpc-web" /\
    Timeout (req st') = (30 * Second)%Z /\ Headers (req st') = ∅ /\
    bodyLines st' = [].
Proof.
  apply (fields_frozen_in_blocks parseDuration5s ["Service: late"; "Timeout: soon"; "{"]
           (setSection InCaptures initial)).
  left. reflexivity.
Defined.

Lemma asserts_in_order_witness :
  exists st', parseLines parseDuration5s (setSection InAsserts initial)
                ["jsonpath " +:+ dquote +:+ "$.id" +:+ dquote +:+ " == 7"; "not an assertion";
                 "jsonpath " +:+ dquote +:+ "$.name" +:+ dquote +:+ " != x"] = Ok st' /\
    Asserts (req st')
    = Asserts (req (setSection InAsserts initial))
      ++ omap (fun line => parseAssertion (TrimSpace line))
              ["jsonpath " +:+ dquote +:+ "$.id" +:+ dquote +:+ " == 7"; "not an assertion";
               "jsonpath " +:+ dquote +:+ "$.name" +:+ dquote +:+ " != x"].
Proof.
  apply (asserts_in_order parseDuration5s).
  - reflexivity.
  - repeat constructor.
Defined.

(** ** internal/client/jsonpath.go *)
Section PathMore.

Local Arguments HasPrefix : simpl never.
Local Arguments String.eqb : simpl never.

Lemma Index_char_cons (c d : ascii) (s : string) :
  Index (String c s) (oneByte d)
  = if Ascii.eqb c d then Some 0 else option_map S (Index s (oneByte d)).
Proof.
  unfold oneByte. simpl. unfold HasPrefix. rewrite andb_true_r.
  destruct (Ascii.eqb c d); reflexivity.
Qed.

Lemma Index_char_empty (d : ascii) : Index EmptyString (oneByte d) = None.
Proof. reflexivity. Qed.

(** The first occurrence of a byte in a concatenation. *)
Lemma Index_append_char (key b : string) (d : ascii) :
  Index (key +:+ b) (oneByte d)
  = match Index key (oneByte d) with
    | Some j => Some j
    | None => option_map (fun j => len key + j) (Index b (oneByte d))
    end.
Proof.
  induction key as [|c key IH].
  - rewrite append_empty_l, Index_char_empty. now destruct (Index b (oneByte d)).
  - rewrite append_cons, !Index_char_cons. destruct (Ascii.eqb c d); [reflexivity|].
    rewrite IH. destruct (Index key (oneByte d)); [reflexivity|].
    destruct (Index b (oneByte d)); reflexivity.
Qed.

Lemma drop_append_le (n : nat) (a b : string) :
  n <= len a -> drop n (a +:+ b) = drop n a +:+ b.
Proof.
  revert a; induction n as [|n IH]; intros a Hn; [reflexivity|].
  destruct a as [|c a]; [unfold len in Hn; simpl in Hn; lia|].
  rewrite append_cons. simpl. apply IH. unfold len in *. simpl in Hn. lia.
Qed.

Lemma take_append_ge (n : nat) (a b : string) :
  len a <= n -> take n (a +:+ b) = a +:+ take (n - len a) b.
Proof.
  revert n; induction a as [|c a IH]; intros n Hn.
  - rewrite !append_empty_l. now rewrite Nat.sub_0_r.
  - destruct n as [|n]; [unfold len in Hn; simpl in Hn; lia|].
    rewrite !append_cons. simpl. f_equal. apply IH. unfold len in *. simpl in Hn. lia.
Qed.

Lemma HasPrefix_append_byte (key b : string) (d e : ascii) :
  HasPrefix key (oneByte d) = false -> Ascii.eqb e d = false ->
  HasPrefix (key +:+ String e b) (oneByte d) = false.
Proof.
  unfold oneByte, HasPrefix. destruct key as [|c key]; intros Hk He.
  - rewrite append_empty_l. now rewrite He.
  - rewrite append_cons. exact Hk.
Qed.

Lemma Index_none_HasPrefix (s sub : string) : Index s sub = None -> HasPrefix s sub = false.
Proof.
  destruct s as [|c s]; simpl; destruct (HasPrefix _ sub); try discriminate; reflexivity.
Qed.

Lemma stripRoot_plain (path : string) : HasPrefix path "$" = false -> stripRoot path = path.
Proof.
  intros H. unfold stripRoot. rewrite H.
  assert (HasPrefix path "$." = false) as ->; [|reflexivity].
  destruct path as [|c path]; [reflexivity|]. unfold HasPrefix in *.
  rewrite andb_true_r in H. now rewrite H.
Qed.

(** The evaluation looks at a path only after its root selector is
    stripped. *)
Lemma evaluatePath_stripRoot (data : JSON) (path path' : string) :
  stripRoot path = stripRoot path' -> evaluatePath data path = evaluatePath data path'.
Proof.
  intros H. rewrite (evaluatePath_unfold data path), (evaluatePath_unfold data path').
  unfold evaluateStep. now rewrite H.
Qed.

(** X16: the root selector is optional: "$." before a path, or "$" before
    a path that does not begin with '.', changes nothing, for a path that
    does not itself begin with '$'; and "$" alone is the whole value. *)
Theorem root_selector_optional (data : JSON) (path : string) :
  HasPrefix path "$" = false ->
  evaluatePath data ("$." +:+ path) = evaluatePath data path /\
  (HasPrefix path "." = false -> evaluatePath data ("$" +:+ path) = evaluatePath data path) /\
  evaluatePath data "$" = Ok data.
Proof.
  intros Hp. split; [|split].
  - apply evaluatePath_stripRoot. rewrite (stripRoot_plain path Hp). reflexivity.
  - intros Hdot. apply evaluatePath_stripRoot. rewrite (stripRoot_plain path Hp).
    unfold stripRoot. destruct path as [|c path]; [reflexivity|].
    unfold HasPrefix in Hdot. rewrite andb_true_r in Hdot.
    change (HasPrefix ("$" +:+ String c path) "$.") with (Ascii.eqb c "." && true).
    rewrite Hdot. reflexivity.
  - reflexivity.
Qed.

Lemma plainKey_append (key : string) (e : ascii) (b : string) :
  plainKey key -> Ascii.eqb e "$" = false -> Ascii.eqb e "[" = false ->
  stripRoot (key +:+ String e b) = key +:+ String e b /\
  String.eqb (key +:+ String e b) EmptyString = false /\
  HasPrefix (key +:+ String e b) "[" = false.
Proof.
  intros (Hdot & Hbr & Hroot) He1 He2. split; [|split].
  - apply stripRoot_plain. now apply (HasPrefix_append_byte key b "$" e).
  - destruct key; reflexivity.
  - apply (HasPrefix_append_byte key b "[" e); [|exact He2].
    now apply Index_none_HasPrefix.
Qed.

Lemma drop_Sappend (key : string) (d : ascii) (rest : string) :
  drop (S (len key)) (key +:+ String d rest) = rest.
Proof.
  induction key as [|c key IH]; [reflexivity|]. rewrite append_cons. exact IH.
Qed.

Lemma HasPrefix_append_nonempty (key b : string) (d : ascii) :
  key <> EmptyString -> HasPrefix (key +:+ b) (oneByte d) = HasPrefix key (oneByte d).
Proof. destruct key as [|c key]; [congruence|]. intros _. now rewrite append_cons. Qed.

Lemma Index_split (s : string) (d : ascii) (j : nat) :
  Index s (oneByte d) = Some j -> s = take j s +:+ String d (drop (S j) s).
Proof.
  revert j; induction s as [|c s IH]; intros j; [discriminate|].
  rewrite Index_char_cons. destruct (Ascii.eqb c d) eqn:E.
  - intros [= <-]. apply Ascii.eqb_eq in E. now subst c.
  - destruct (Index s (oneByte d)) as [k|] eqn:Ek; [|discriminate].
    intros [= <-]. simpl. rewrite append_cons. f_equal. now apply IH.
Qed.

(** X17: the dot notation: for a key without '.', '[' or a leading '$',
    the path "key.rest" is the path "rest" on the field of that key of an
    object; it fails with "key not found" when the object has no such
    field and with "expected object" on a value that is not an object.
    The path "key" alone (not empty) is the field itself. *)
Theorem object_key_lookup (data : JSON) (key rest : string) :
  plainKey key ->
  evaluatePath data (key +:+ "." +:+ rest)
  = match data with
    | JObject fields =>
        match fields !! key with
        | Some val => evaluatePath val rest
        | None => Err (KeyNotFound key)
        end
    | _ => Err (ExpectedObject key data)
    end /\
  (key <> EmptyString ->
   evaluatePath data key
   = match data with
     | JObject fields =>
         match fields !! key with
         | Some val => Ok val
         | None => Err (KeyNotFound key)
         end
     | _ => Err (ExpectedObject key data)
     end).
Proof.
  intros Hkey. pose proof Hkey as (Hdot & Hbr & Hroot). split.
  - destruct (plainKey_append key "." rest Hkey eq_refl eq_refl) as (Hs & Hne & Hnb).
    change (String "." rest) with ("." +:+ rest) in *.
    rewrite evaluatePath_unfold. unfold evaluateStep. rewrite Hs, Hne, Hnb.
    assert (Hidx : Index (key +:+ "." +:+ rest) "." = Some (len key)).
    { change "."%string with (oneByte ".") at 2. rewrite Index_append_char.
      change (oneByte ".") with "."%string. rewrite Hdot.
      change (Index ("." +:+ rest) ".") with (Some 0). simpl. f_equal. lia. }
    unfold SplitN2. rewrite Hidx. cbn [hd].
    rewrite take_append, Hbr.
    replace (drop (len key + len ".") (key +:+ "." +:+ rest)) with rest.
    2:{ rewrite Nat.add_comm. symmetry. apply (drop_Sappend key "." rest). }
    reflexivity.
  - intros Hne. rewrite evaluatePath_unfold. unfold evaluateStep.
    rewrite (stripRoot_plain key Hroot).
    assert (String.eqb key EmptyString = false) as -> by (destruct key; [congruence | reflexivity]).
    rewrite (Index_none_HasPrefix key "[" Hbr).
    unfold SplitN2. rewrite Hdot. cbn [hd]. rewrite Hbr. reflexivity.
Qed.

(** X18: a key followed by an index: for a key as above that is not
    empty, the path "key[...", whatever follows the bracket, is the path
    "[..." on the field of that key. *)
Theorem key_then_index (data : JSON) (key tail : string) :
  plainKey key -> key <> EmptyString ->
  evaluatePath data (key +:+ "[" +:+ tail)
  = match data with
    | JObject fields =>
        match fields !! key with
        | Some val => evaluatePath val ("[" +:+ tail)
        | None => Err (KeyNotFound key)
        end
    | _ => Err (ExpectedObject key data)
    end.
Proof.
  intros Hkey Hne. pose proof Hkey as (Hdot & Hbr & Hroot).
  change ("[" +:+ tail) with (String "[" tail).
  set (P := key +:+ String "[" tail).
  assert (Hs : stripRoot P = P).
  { apply stripRoot_plain. unfold P.
    change "$"%string with (oneByte "$"). now rewrite HasPrefix_append_nonempty. }
  assert (Hnonempty : String.eqb P EmptyString = false).
  { unfold P. destruct key; [congruence | reflexivity]. }
  assert (Hnb : HasPrefix P "[" = false).
  { unfold P. change "["%string with (oneByte "["). rewrite HasPrefix_append_nonempty by exact Hne.
    now apply Index_none_HasPrefix. }
  assert (Hseg : forall x, Index (key +:+ String "[" x) "[" = Some (len key)).
  { intros x. change "["%string with (oneByte "["). rewrite Index_append_char.
    change (oneByte "[") with "["%string. rewrite Hbr.
    change (Index (String "[" x) "[") with (Some 0). simpl. f_equal. lia. }
  assert (HidxP : Index P "." = option_map (fun j => len key + S j) (Index tail ".")).
  { unfold P. change "."%string with (oneByte "."). rewrite Index_append_char.
    change (Index key (oneByte ".")) with (Index key "."). rewrite Hdot.
    rewrite Index_char_cons. change (Ascii.eqb "[" ".") with false. cbv iota.
    destruct (Index tail (oneByte ".")); reflexivity. }
  rewrite evaluatePath_unfold. unfold evaluateStep. rewrite Hs, Hnonempty, Hnb.
  unfold SplitN2. rewrite HidxP.
  destruct (Index tail ".") as [j|] eqn:Hj; cbn [option_map hd].
  - assert (Htake : take (len key + S j) P = key +:+ String "[" (take j tail)).
    { unfold P. rewrite take_append_ge by lia.
      replace (len key + S j - len key) with (S j) by lia. reflexivity. }
    rewrite Htake, Hseg, take_append, drop_append.
    replace (drop (len key + S j + len ".") P) with (drop (S j) tail).
    2:{ unfold P. change (len ".") with 1.
        replace (len key + S j + 1) with (S (len key) + S j) by lia.
        clear. induction key as [|c key IH]; [reflexivity|]. rewrite append_cons. exact IH. }
    replace (String "[" (take j tail) +:+ "." +:+ drop (S j) tail) with (String "[" tail).
    2:{ rewrite append_cons. f_equal. exact (Index_split tail "." j Hj). }
    reflexivity.
  - unfold P at 1. rewrite Hseg. unfold P. rewrite take_append, drop_append. reflexivity.
Qed.

Lemma parseDigits_uint (d : Decimal.uint) (acc : Z) :
  (0 <= acc)%Z ->
  parseDigits acc (NilEmpty.string_of_uint d)
  = Some (Z.of_nat (Nat.of_uint_acc d (Z.to_nat acc))).
Proof.
  revert acc; induction d as [|d IH|d IH|d IH|d IH|d IH|d IH|d IH|d IH|d IH|d IH];
    intros acc Hacc; cbn [NilEmpty.string_of_uint parseDigits Nat.of_uint_acc];
    [f_equal; lia | ..];
    (match goal with
     | |- context [digitValue ?c] =>
         let v := eval vm_compute in (digitValue c) in change (digitValue c) with v
     end;
     cbv iota; rewrite IH by lia; do 3 f_equal; rewrite Nat.tail_mul_spec; lia).
Qed.

Lemma uint_no_bracket (d : Decimal.uint) : Index (NilEmpty.string_of_uint d) "]" = None.
Proof.
  change "]"%string with (oneByte "]").
  induction d; cbn [NilEmpty.string_of_uint]; [reflexivity | ..];
    rewrite Index_char_cons, IHd; reflexivity.
Qed.

Lemma decimal_digits (n : nat) :
  exists c s, decimal n = String c s /\ Ascii.eqb c "-" = false /\ Ascii.eqb c "+" = false /\
              Ascii.eqb c "[" = false /\
              parseDigits 0 (decimal n) = Some (Z.of_nat n) /\ Index (decimal n) "]" = None.
Proof.
  unfold decimal, NilZero.string_of_uint.
  pose proof (DecimalNat.Unsigned.of_to n) as Hof. unfold Nat.of_uint in Hof.
  pose proof (parseDigits_uint (Nat.to_uint n) 0 ltac:(lia)) as Hp.
  pose proof (uint_no_bracket (Nat.to_uint n)) as Hb.
  change (Z.to_nat 0) with 0 in Hp. rewrite Hof in Hp.
  destruct (Nat.to_uint n); simpl in *;
    [subst n | ..]; eexists; eexists; repeat split; try reflexivity; try assumption.
Qed.

(** [strconv.Atoi] reads back the decimal text of a number within [int]. *)
Lemma Atoi_decimal (n : nat) : (Z.of_nat n < 2 ^ 63)%Z -> Atoi (decimal n) = Some (Z.of_nat n).
Proof.
  intros Hn. destruct (decimal_digits n) as (c & s & Hd & H1 & H2 & _ & Hp & _).
  unfold Atoi. rewrite Hd in *. rewrite H1, H2. cbn [fst snd]. rewrite Hp.
  assert (((- 2 ^ 63 <=? Z.of_nat n) && (Z.of_nat n <? 2 ^ 63))%Z = true) as ->; [|reflexivity].
  apply andb_true_iff. split; [apply Z.leb_le | apply Z.ltb_lt]; lia.
Qed.

(** X19: the path "[i]" with the decimal text of an index [i] (within
    [int]) is element [i] of an array, counted from 0, and what follows
    the bracket (a leading '.' dropped) is evaluated on that element; an
    index from the length on fails with "array index out of bounds". *)
Theorem index_by_decimal (elems : list JSON) (i : nat) (rest : string) :
  (Z.of_nat i < 2 ^ 63)%Z ->
  evaluatePath (JArray elems) ("[" +:+ decimal i +:+ "]" +:+ rest)
  = match elems !! i with
    | Some elem => evaluatePath elem (TrimPrefix rest ".")
    | None => Err (OutOfBounds (Z.of_nat i))
    end.
Proof.
  intros Hi. destruct (decimal_digits i) as (c & s & Hd & _ & _ & _ & _ & Hnb).
  pose proof (Atoi_decimal i Hi) as Hatoi.
  set (digits := decimal i) in *.
  change ("[" +:+ digits +:+ "]" +:+ rest) with (String "[" (digits +:+ String "]" rest)).
  set (P := String "[" (digits +:+ String "]" rest)).
  assert (Hidx : Index P "]" = Some (S (len digits))).
  { unfold P. change "]"%string with (oneByte "]"). rewrite Index_char_cons.
    change (Ascii.eqb "[" "]") with false. cbv iota. rewrite Index_append_char.
    change (Index digits (oneByte "]")) with (Index digits "]"). rewrite Hnb.
    rewrite Index_char_cons. change (Ascii.eqb "]" "]") with true. cbv iota. simpl.
    do 2 f_equal. lia. }
  rewrite evaluatePath_unfold. unfold evaluateStep.
  change (stripRoot P) with P. change (String.eqb P EmptyString) with false.
  change (HasPrefix P "[") with true. cbv iota. rewrite Hidx.
  assert (Hslice : slice 1 (S (len digits)) P = digits).
  { unfold slice, P. simpl. apply take_append. }
  rewrite Hslice, Hatoi.
  assert (Hrest : drop (S (len digits) + 1) P = rest).
  { unfold P. replace (S (len digits) + 1) with (S (S (len digits))) by lia.
    simpl. apply drop_Sappend. }
  rewrite Hrest, Nat2Z.id.
  destruct (elems !! i) as [elem|] eqn:Hlook.
  - pose proof (lookup_lt_Some _ _ _ Hlook) as Hlt.
    assert (((Z.of_nat i <? 0) || (Z.of_nat (length elems) <=? Z.of_nat i))%Z = false) as ->.
    { apply orb_false_iff. split; [apply Z.ltb_ge | apply Z.leb_gt]; lia. }
    now rewrite (nth_lookup_Some _ _ JNull _ Hlook).
  - apply lookup_ge_None in Hlook.
    assert (((Z.of_nat i <? 0) || (Z.of_nat (length elems) <=? Z.of_nat i))%Z = true) as ->;
      [|reflexivity].
    apply orb_true_iff. right. apply Z.leb_le. lia.
Qed.

End PathMore.

Lemma root_selector_optional_witness :
  evaluatePath sampleUsers ("$." +:+ "users[0].name") = evaluatePath sampleUsers "users[0].name".
Proof.
  exact (proj1 (root_selector_optional sampleUsers "users[0].name" eq_refl)).
Defined.

Lemma object_key_lookup_witness :
  evaluatePath (JObject {["user" := JObject {["name" := JString "Alice"]}]}) ("user" +:+ "." +:+ "name")
  = match ({["user" := JObject {["name" := JString "Alice"]}]} : gmap string JSON) !! "user" with
    | Some val => evaluatePath val "name"
    | None => Err (KeyNotFound "user")
    end.
Proof.
  refine (proj1 (object_key_lookup (JObject {["user" := JObject {["name" := JString "Alice"]}]})
                   "user" "name" _)).
  repeat split.
Defined.

Lemma key_then_index_witness :
  evaluatePath sampleUsers ("users" +:+ "[" +:+ "1].name")
  = match sampleUsers with
    | JObject fields =>
        match fields !! "users" with
        | Some val => evaluatePath val ("[" +:+ "1].name")
        | None => Err (KeyNotFound "users")
        end
    | _ => Err (ExpectedObject "users" sampleUsers)
    end.
Proof.
  apply (key_then_index sampleUsers "users" "1].name").
  - repeat split.
  - discriminate.
Defined.

Lemma index_by_decimal_witness :
  evaluatePath (JArray [JString "read"; JString "write"]) ("[" +:+ decimal 1 +:+ "]" +:+ EmptyString)
  = match [JString "read"; JString "write"] !! 1 with
    | Some elem => evaluatePath elem (TrimPrefix EmptyString ".")
    | None => Err (OutOfBounds (Z.of_nat 1))
    end.
Proof.
  apply (index_by_decimal [JString "read"; JString "write"] 1 EmptyString).
  reflexivity.
Defined.

(** ** internal/proto/parser.go *)
Section RegistryFacts.

Import Proto.

(** X20: [FindMethod] returns the first method of the service of that name
    whose name is the one asked for.  It fails with "service not found"
    exactly when no service has that name, and otherwise, when no method
    has the name, with an error that lists the names of all the methods of
    the service. *)
Theorem FindMethod_result (r : Registry) (serviceName methodName : string) :
  match FindMethod r serviceName methodName with
  | Ok m =>
      exists svc before after,
        services r !! serviceName = Some svc /\
        svcMethods svc = before ++ m :: after /\
        mName m = methodName /\
        Forall (fun x => mName x <> methodName) before
  | Err (ServiceNotFound name) => name = serviceName /\ services r !! serviceName = None
  | Err (NoSuchMethod m s available) =>
      m = methodName /\ s = serviceName /\
      exists svc, services r !! serviceName = Some svc /\
                  available = map mName (svcMethods svc) /\
                  ~ In methodName available
  end.
Proof.
  unfold FindMethod, FindService.
  destruct (services r !! serviceName) as [svc|] eqn:Hsvc; [|now split].
  destruct (List.find _ (svcMethods svc)) as [m|] eqn:Hfind.
  - exists svc.
    induction (svcMethods svc) as [|x methods IH]; [discriminate|].
    simpl in Hfind. destruct (String.eqb (mName x) methodName) eqn:E.
    + injection Hfind as <-. exists [], methods. apply String.eqb_eq in E. now repeat split.
    + destruct (IH Hfind) as (before & after & _ & -> & Hn & Hall).
      exists (x :: before), after. repeat split; try assumption.
      constructor; [now apply String.eqb_neq | exact Hall].
  - repeat split. exists svc. repeat split.
    intros Hin. apply in_map_iff in Hin as (x & Hx & Hin).
    pose proof (find_none _ _ Hfind x Hin) as Hno. simpl in Hno.
    apply String.eqb_neq in Hno. contradiction.
Qed.

Lemma find_append {A : Type} (f : A -> bool) (l1 l2 : list A) :
  List.find f (l1 ++ l2)
  = match List.find f l1 with Some x => Some x | None => List.find f l2 end.
Proof. induction l1 as [|x l1 IH]; simpl; [reflexivity|]. now destruct (f x). Qed.

Lemma indexService_fold (svcs : list ServiceDescriptor) (m : gmap string ServiceDescriptor)
    (name : string) :
  fold_left indexService svcs m !! name
  = match List.find (fun svc => String.eqb (svcFullName svc) name) (rev svcs) with
    | Some svc => Some svc
    | None => m !! name
    end.
Proof.
  revert m; induction svcs as [|svc svcs IH]; intros m; [reflexivity|].
  simpl fold_left. rewrite IH. simpl rev.
  rewrite find_append.
  destruct (List.find _ (rev svcs)); [reflexivity|]. simpl. unfold indexService.
  destruct (String.eqb (svcFullName svc) name) eqn:E.
  - apply String.eqb_eq in E. subst name. apply lookup_insert_eq.
  - apply String.eqb_neq in E. now apply lookup_insert_ne.
Qed.

Lemma registryOf_services (fds : list FileDescriptor) (r : Registry) :
  services (fold_left (fun r fd => AddFile fd r) fds r)
  = fold_left indexService (concat (map fdServices fds)) (services r) /\
  files (fold_left (fun r fd => AddFile fd r) fds r) = files r ++ fds.
Proof.
  revert r; induction fds as [|fd fds IH]; intros r; simpl.
  - now rewrite app_nil_r.
  - destruct (IH (AddFile fd r)) as [-> ->]. simpl.
    now rewrite fold_left_app, <- app_assoc.
Qed.

(** X21: in the registry of some compiled files, the service found under
    a name is the last service of that full name in the files, in their
    order; a name that no service of the files has is not found.  So every
    service of the files can be found by its name, and what is found has
    the name asked for. *)
Theorem registryOf_FindService (fds : list FileDescriptor) (name : string) :
  let all := concat (map fdServices fds) in
  FindService (registryOf fds) name
  = match List.find (fun svc => String.eqb (svcFullName svc) name) (rev all) with
    | Some svc => Ok svc
    | None => Err (ServiceNotFound name)
    end /\
  (forall svc, FindService (registryOf fds) name = Ok svc ->
               svcFullName svc = name /\ In svc all) /\
  (forall svc, In svc all -> exists svc', FindService (registryOf fds) (svcFullName svc) = Ok svc') /\
  files (registryOf fds) = fds.
Proof.
  cbv zeta. unfold registryOf, FindService.
  destruct (registryOf_services fds NewRegistry) as [Hs Hf]. rewrite Hs, Hf.
  assert (Hlook : forall n,
             fold_left indexService (concat (map fdServices fds)) (services NewRegistry) !! n
             = List.find (fun svc => String.eqb (svcFullName svc) n)
                         (rev (concat (map fdServices fds)))).
  { intros n. rewrite indexService_fold. simpl. rewrite lookup_empty.
    now destruct (List.find _ _). }
  split; [|split; [|split]].
  - rewrite Hlook. now destruct (List.find _ _).
  - intros svc. rewrite Hlook.
    destruct (List.find _ _) as [svc'|] eqn:Hfind; [|discriminate].
    intros [= <-]. apply find_some in Hfind as [Hin E].
    split; [now apply String.eqb_eq | now apply in_rev].
  - intros svc Hin. rewrite Hlook.
    destruct (List.find _ _) as [svc'|] eqn:Hfind; [eauto|].
    exfalso. apply in_rev in Hin.
    pose proof (find_none _ _ Hfind svc Hin) as Hno. simpl in Hno.
    now rewrite String.eqb_refl in Hno.
  - reflexivity.
Qed.

End RegistryFacts.

(** ** The call command and the URL of a call *)
Section CallFacts.

Import CallCmd.

Local Arguments TrimSpace : simpl never.

Lemma parseHeaders_from (headers : list string) (m0 : gmap string string) :
  match parseHeaders headers m0 with
  | Ok m =>
      Forall (fun h => Index h ":" <> None) headers /\
      m = list_to_map (rev (map headerPair headers)) ∪ m0
  | Err (InvalidHeader h) =>
      exists before after,
        headers = before ++ h :: after /\ Index h ":" = None /\
        Forall (fun x => Index x ":" <> None) before
  end.
Proof.
  revert m0; induction headers as [|h headers IH]; intros m0; simpl.
  - split; [constructor|]. now rewrite map_empty_union.
  - unfold SplitN2. destruct (Index h ":") as [i|] eqn:Hi.
    + specialize (IH (<[TrimSpace (take i h) := TrimSpace (drop (i + len ":") h)]> m0)).
      destruct (parseHeaders headers _) as [m|[bad]].
      * destruct IH as [Hall ->]. split; [constructor; [congruence | exact Hall]|].
        rewrite list_to_map_app, <- map_union_assoc. f_equal.
        unfold headerPair. rewrite Hi. simpl list_to_map.
        now rewrite insert_empty, <- insert_union_singleton_l.
      * destruct IH as (before & after & -> & Hbad & Hall).
        exists (h :: before), after. repeat split; [exact Hbad|].
        constructor; [congruence | exact Hall].
    + exists [], headers. now repeat split.
Qed.

(** X22: the headers of the command line: the first header without a
    colon makes the command fail, naming it; when every header has one,
    each key (trimmed) gets the value (trimmed) of the last header with
    that key. *)
Theorem parseHeaders_result (headers : list string) :
  match parseHeaders headers ∅ with
  | Ok m =>
      Forall (fun h => Index h ":" <> None) headers /\
      m = list_to_map (rev (map headerPair headers))
  | Err (InvalidHeader h) =>
      exists before after,
        headers = before ++ h :: after /\ Index h ":" = None /\
        Forall (fun x => Index x ":" <> None) before
  end.
Proof.
  pose proof (parseHeaders_from headers ∅) as H.
  destruct (parseHeaders headers ∅) as [m|[h]]; [|exact H].
  destruct H as [Hall ->]. split; [exact Hall|]. now rewrite map_union_empty.
Qed.

Lemma revOnto_append (s acc : string) : revOnto s acc = reverse s +:+ acc.
Proof.
  unfold reverse. revert acc; induction s as [|c s IH]; intros acc; [reflexivity|].
  simpl. rewrite (IH (String c acc)), (IH (String c EmptyString)).
  now rewrite append_assoc.
Qed.

Lemma reverse_append (a b : string) : reverse (a +:+ b) = reverse b +:+ reverse a.
Proof.
  induction a as [|c a IH]; [now rewrite append_empty_l, append_empty_r|].
  rewrite append_cons. unfold reverse at 1 3. simpl.
  rewrite !revOnto_append, IH. now rewrite append_assoc.
Qed.

Lemma reverse_nonempty (s : string) : s <> EmptyString -> reverse s <> EmptyString.
Proof.
  destruct s as [|c s]; [congruence|]. intros _ H.
  apply (f_equal len) in H. unfold reverse in H. simpl in H.
  rewrite revOnto_append, len_append in H. unfold len in H. simpl in H. lia.
Qed.

Lemma HasSuffix_append (a b : string) (d : ascii) :
  b <> EmptyString -> HasSuffix (a +:+ b) (oneByte d) = HasSuffix b (oneByte d).
Proof.
  intros Hb. unfold HasSuffix. rewrite reverse_append.
  change (reverse (oneByte d)) with (oneByte d).
  apply HasPrefix_append_nonempty. now apply reverse_nonempty.
Qed.

Lemma TrimSuffix_none (s suffix : string) : HasSuffix s suffix = false -> TrimSuffix s suffix = s.
Proof. intros H. unfold TrimSuffix. now rewrite H. Qed.

(** X23: the address of a request is cut by the run command, trimmed by
    [NewClient] and put together again by [Call]: when neither the address
    nor its part before the third slash ends with a slash, the URL called
    is the address followed by "/service/method". *)
Theorem url_of_address (address serviceFullName methodName : string)
    (protocol : Grpc.Protocol) (headers : gmap string string) :
  HasSuffix address "/" = false ->
  HasSuffix (fst (parseAddressAndPrefix address)) "/" = false ->
  CallURL.fullURL (Grpc.NewClient (fst (parseAddressAndPrefix address))
                                  (snd (parseAddressAndPrefix address)) protocol headers)
                  serviceFullName methodName
  = address +:+ "/" +:+ serviceFullName +:+ "/" +:+ methodName.
Proof.
  intros Hend Hbase.
  assert (Hjoin : fst (parseAddressAndPrefix address) +:+ snd (parseAddressAndPrefix address)
                  = address).
  { unfold parseAddressAndPrefix. destruct (thirdSlash 0 0 address); simpl;
      [apply take_drop | apply append_empty_r]. }
  destruct (parseAddressAndPrefix address) as [base prefix]. simpl in *.
  unfold CallURL.fullURL, Grpc.NewClient. simpl.
  rewrite (TrimSuffix_none base "/" Hbase).
  assert (Hprefix : TrimSuffix prefix "/" = prefix).
  { destruct prefix as [|c prefix]; [reflexivity|]. apply TrimSuffix_none.
    rewrite <- Hjoin in Hend. change "/"%string with (oneByte "/") in *.
    now rewrite HasSuffix_append in Hend. }
  rewrite Hprefix. unfold CallURL.callPath.
  destruct (String.eqb prefix EmptyString) eqn:E; simpl.
  - apply String.eqb_eq in E. subst prefix. rewrite append_empty_r in Hjoin. now subst base.
  - now rewrite Hjoin.
Qed.

End CallFacts.

Lemma url_of_address_witness :
  CallURL.fullURL (Grpc.NewClient (fst (parseAddressAndPrefix "http://localhost:8080/api/grpc"))
                                  (snd (parseAddressAndPrefix "http://localhost:8080/api/grpc"))
                                  Grpc.ProtocolGRPCWeb ∅)
                  "example.UserService" "GetUser"
  = "http://localhost:8080/api/grpc" +:+ "/" +:+ "example.UserService" +:+ "/" +:+ "GetUser".
Proof.
  apply (url_of_address "http://localhost:8080/api/grpc" "example.UserService" "GetUser"
           Grpc.ProtocolGRPCWeb ∅); reflexivity.
Defined.

(** ** The lines of the Asserts block *)
Section AssertionFacts.

Variable ParseDuration : string -> result string Z.

Ltac graphic_bounds c H :=
  unfold graphic in H; apply andb_true_iff in H as [?Hlo ?Hhi];
  apply N.leb_le in Hlo, Hhi;
  repeat match goal with
  | |- context [(N_of_ascii c =? ?k)%N] =>
      replace (N_of_ascii c =? k)%N with false by (symmetry; apply N.eqb_neq; lia)
  | |- context [(N_of_ascii c <=? ?k)%N] =>
      replace (N_of_ascii c <=? k)%N with false by (symmetry; apply N.leb_gt; lia)
  | |- context [(?k <=? N_of_ascii c)%N] =>
      replace (k <=? N_of_ascii c)%N with false by (symmetry; apply N.leb_gt; lia)
  end.

Lemma spaceWidth_graphic (c : ascii) (s : string) :
  graphic c = true -> spaceWidth (String c s) = 0.
Proof.
  intros H. unfold spaceWidth, isASCIISpace. cbv zeta. graphic_bounds c H.
  rewrite ?andb_false_r. simpl. destruct s as [|c1 [|c2 s2]]; reflexivity.
Qed.

Lemma spaceWidthRev_graphic (c : ascii) (r : string) :
  graphic c = true -> spaceWidthRev (String c r) = 0.
Proof.
  intros H. unfold spaceWidthRev, isASCIISpace. cbv zeta. graphic_bounds c H.
  rewrite ?andb_false_r. simpl. destruct r as [|c1 [|c2 r2]]; try reflexivity.
  - now rewrite ?andb_false_r.
  - now rewrite ?andb_false_r.
Qed.

Lemma trimFront_stop (width : string -> nat) (c : ascii) (s : string) :
  width (String c s) = 0 -> trimFront width 0 (String c s) = String c s.
Proof. intros H. cbn [trimFront]. now rewrite H. Qed.

Lemma reverse_cons (c : ascii) (s : string) : reverse (String c s) = reverse s +:+ oneByte c.
Proof. unfold reverse at 1. simpl. apply revOnto_append. Qed.

Lemma reverse_involutive (s : string) : reverse (reverse s) = s.
Proof.
  induction s as [|c s IH]; [reflexivity|].
  rewrite reverse_cons, reverse_append, IH. reflexivity.
Qed.

Lemma endsGraphic_append (p s : string) : endsGraphic s -> endsGraphic (p +:+ s).
Proof.
  intros (a & g & -> & Hg). exists (p +:+ a), g. now rewrite append_assoc.
Qed.

Lemma endsGraphic_cons (c : ascii) (s : string) : endsGraphic s -> endsGraphic (String c s).
Proof. apply (endsGraphic_append (oneByte c)). Qed.

Lemma endsGraphic_word (w : string) : isWord w = true -> endsGraphic w.
Proof.
  unfold isWord. destruct w as [|c w]; [discriminate|]. simpl negb. rewrite andb_true_l.
  revert c; induction w as [|d w IH]; intros c H; simpl in H.
  - exists EmptyString, c. split; [reflexivity|]. now rewrite andb_true_r in H.
  - apply andb_true_iff in H as [_ H]. apply endsGraphic_cons, IH. exact H.
Qed.

(** White space is trimmed at the ends only: a text that begins and ends
    with a graphic byte is left as it is. *)
Lemma TrimSpace_keep (c : ascii) (s : string) :
  graphic c = true -> endsGraphic (String c s) -> TrimSpace (String c s) = String c s.
Proof.
  intros Hc (a & g & Hs & Hg). unfold TrimSpace.
  rewrite trimFront_stop by now apply spaceWidth_graphic.
  rewrite Hs, reverse_append. change (reverse (oneByte g)) with (oneByte g).
  unfold oneByte. rewrite append_cons, append_empty_l.
  rewrite trimFront_stop by now apply spaceWidthRev_graphic.
  rewrite reverse_cons, reverse_involutive. reflexivity.
Qed.

Lemma TrimSpace_space (s : string) : TrimSpace (String " " s) = TrimSpace s.
Proof. reflexivity. Qed.

Lemma allGraphic_no_byte (w : string) (d : ascii) :
  allGraphic w = true -> graphic d = false -> Index w (oneByte d) = None.
Proof.
  intros Hw Hd. induction w as [|c w IH]; [reflexivity|].
  simpl in Hw. apply andb_true_iff in Hw as [Hc Hw].
  rewrite Index_char_cons. destruct (Ascii.eqb_spec c d) as [->|_]; [congruence|].
  now rewrite IH.
Qed.

Lemma Index_at_byte (a : string) (d : ascii) (rest : string) :
  Index a (oneByte d) = None -> Index (a +:+ String d rest) (oneByte d) = Some (len a).
Proof.
  intros H. rewrite Index_append_char, H, Index_char_cons, Ascii.eqb_refl. simpl.
  now rewrite Nat.add_0_r.
Qed.

(** [strings.Fields]: graphic bytes go to the field being read. *)
Lemma fieldsFrom_graphic (c : ascii) (s : string) (cur : option string) :
  graphic c = true -> fieldsFrom 0 cur (String c s) = fieldsFrom 0 (push cur c) s.
Proof. intros H. cbn [fieldsFrom]. now rewrite spaceWidth_graphic. Qed.

Lemma fieldsFrom_space (cur : option string) (s : string) :
  fieldsFrom 0 cur (String " " s) = flush cur ++ fieldsFrom 0 None s.
Proof. reflexivity. Qed.

Lemma fieldsFrom_graphics (w rest f : string) :
  allGraphic w = true ->
  exists f', fieldsFrom 0 (Some f) (w +:+ rest) = fieldsFrom 0 (Some f') rest.
Proof.
  revert f; induction w as [|c w IH]; intros f H; [now exists f|].
  simpl in H. apply andb_true_iff in H as [Hc Hw].
  rewrite append_cons, fieldsFrom_graphic by exact Hc. simpl push. now apply IH.
Qed.

Lemma fieldsFrom_word (w rest : string) (cur : option string) :
  isWord w = true ->
  exists f, fieldsFrom 0 cur (w +:+ rest) = fieldsFrom 0 (Some f) rest.
Proof.
  unfold isWord. destruct w as [|c w]; [discriminate|]. simpl negb. rewrite andb_true_l.
  cbn [allGraphic]. intros H. apply andb_true_iff in H as [Hc Hw].
  rewrite append_cons, fieldsFrom_graphic by exact Hc.
  destruct cur as [f|]; simpl push; now apply fieldsFrom_graphics.
Qed.

Lemma fieldsFrom_open (skip : nat) (f s : string) : 1 <= length (fieldsFrom skip (Some f) s).
Proof.
  revert skip f; induction s as [|c s IH]; intros skip f; [simpl; lia|].
  cbn [fieldsFrom]. destruct skip as [|k]; [|apply IH].
  destruct (spaceWidth (String c s)); [apply IH|]. simpl. lia.
Qed.

(** A white-space character of several bytes cannot begin in a text and
    end beyond a quote that follows it. *)
Lemma spaceWidth_before_quote (c : ascii) (k rest : string) (w : nat) :
  spaceWidth (String c (k +:+ String "034" rest)) = S w -> w <= len k.
Proof.
  unfold spaceWidth. cbv zeta. destruct (isASCIISpace c); [intros [= <-]; lia|].
  destruct k as [|c1 k].
  - rewrite append_empty_l. simpl.
    destruct (N_of_ascii c =? 194)%N; [discriminate|].
    destruct rest as [|c2 rest]; [discriminate|].
    rewrite ?andb_false_r. simpl. rewrite ?andb_false_r. discriminate.
  - rewrite append_cons. destruct (N_of_ascii c =? 194)%N.
    + destruct (_ || _)%bool; intros [= <-]; unfold len; simpl; lia.
    + destruct k as [|c2 k].
      * rewrite append_empty_l. simpl. rewrite ?andb_false_r. simpl. discriminate.
      * rewrite append_cons. destruct (_ || _)%bool; intros [= <-]; unfold len; simpl; lia.
Qed.

Lemma fieldsFrom_through (k rest : string) (skip : nat) (cur : option string) :
  skip <= len k ->
  exists pre cur',
    fieldsFrom skip cur (k +:+ String "034" rest)
    = pre ++ fieldsFrom 0 cur' (String "034" rest).
Proof.
  revert skip cur; induction k as [|c k IH]; intros skip cur Hskip.
  - unfold len in Hskip; simpl in Hskip. assert (skip = 0) as -> by lia.
    now exists [], cur.
  - rewrite append_cons. cbn [fieldsFrom]. destruct skip as [|j].
    + destruct (spaceWidth (String c (k +:+ String "034" rest))) as [|w] eqn:Hw.
      * apply IH. lia.
      * apply spaceWidth_before_quote in Hw.
        destruct (IH w None Hw) as (pre & cur' & ->).
        exists (flush cur ++ pre), cur'. now rewrite <- app_assoc.
    + apply IH. unfold len in *; simpl in Hskip. lia.
Qed.

Lemma graphic_quote : graphic "034" = true.
Proof. reflexivity. Qed.

(** The four parts of a line in the documented format. *)
Lemma assertion_line_parts (aType key op tail : string) (g : ascii) (t : string) :
  isWord aType = true -> isWord op = true -> Index key dquote = None ->
  tail = String g t -> graphic g = true -> endsGraphic tail ->
  let line := aType +:+ String " " (String "034" (key +:+ String "034"
                (String " " (op +:+ String " " tail)))) in
  4 <= length (Fields line) /\ assertHead line = Some (aType, key, op, tail).
Proof.
  intros Ha Ho Hk Ht Hg Hend line. split.
  - unfold Fields, line.
    destruct (fieldsFrom_word aType (String " " (String "034" (key +:+ String "034"
                (String " " (op +:+ String " " tail))))) None Ha) as (f1 & ->).
    rewrite fieldsFrom_space. cbn [flush].
    rewrite fieldsFrom_graphic by exact graphic_quote.
    destruct (fieldsFrom_through key (String " " (op +:+ String " " tail)) 0
                (push None "034") ltac:(lia)) as (pre & cur' & ->).
    rewrite fieldsFrom_graphic by exact graphic_quote.
    destruct (push cur' "034") as [f2|] eqn:E; [|destruct cur'; discriminate].
    rewrite fieldsFrom_space. cbn [flush].
    destruct (fieldsFrom_word op (String " " tail) None Ho) as (f3 & ->).
    rewrite fieldsFrom_space. cbn [flush].
    subst tail. rewrite fieldsFrom_graphic by exact Hg.
    pose proof (fieldsFrom_open 0 (String g EmptyString) t) as H1.
    simpl push. simpl. rewrite length_app. simpl. lia.
  - assert (Haw : allGraphic aType = true /\ allGraphic op = true).
    { unfold isWord in Ha, Ho. apply andb_true_iff in Ha as [_ Ha].
      apply andb_true_iff in Ho as [_ Ho]. now split. }
    destruct Haw as [Haw How].
    assert (Hop : exists c op', op = String c op' /\ graphic c = true).
    { destruct op as [|c op']; [discriminate|]. exists c, op'. split; [reflexivity|].
      simpl in How. now apply andb_true_iff in How as [? _]. }
    destruct Hop as (c & op' & Hop & Hc).
    assert (E2 : TrimSpace (op +:+ String " " tail) = op +:+ String " " tail).
    { rewrite Hop, append_cons. apply TrimSpace_keep; [exact Hc|].
      rewrite <- append_cons, <- Hop. apply endsGraphic_append, endsGraphic_cons, Hend. }
    assert (E3 : TrimSpace tail = tail).
    { rewrite Ht. apply TrimSpace_keep; [exact Hg | now rewrite <- Ht]. }
    unfold assertHead, line.
    rewrite (Index_at_byte aType " ") by now apply allGraphic_no_byte.
    rewrite take_append, drop_append, TrimSpace_space.
    rewrite TrimSpace_keep;
      [|exact graphic_quote
       |apply endsGraphic_cons, endsGraphic_append, endsGraphic_cons, endsGraphic_cons,
          endsGraphic_append, endsGraphic_cons, Hend].
    change (HasPrefix (String "034" ?x) dquote) with true. cbn [negb drop].
    rewrite (Index_at_byte key "034") by exact Hk.
    rewrite take_append, Nat.add_1_r, drop_Sappend, TrimSpace_space, E2.
    rewrite (Index_at_byte op " ") by now apply allGraphic_no_byte.
    now rewrite take_append, drop_append, TrimSpace_space, E3.
Qed.

(** The helper that reads an assertion gives back the four parts of a
    line in the documented format. *)
Lemma parseAssertion_line (aType key op value : string) :
  isWord aType = true -> isWord op = true -> Index key dquote = None ->
  (Index value dquote = None ->
   parseAssertion (aType +:+ " " +:+ dquote +:+ key +:+ dquote +:+ " " +:+ op +:+ " "
                   +:+ dquote +:+ value +:+ dquote)
   = Some (mkAssertion aType key op value)) /\
  (isWord value = true -> HasPrefix value dquote = false ->
   parseAssertion (aType +:+ " " +:+ dquote +:+ key +:+ dquote +:+ " " +:+ op +:+ " "
                   +:+ value)
   = Some (mkAssertion aType key op value)).
Proof.
  intros Ha Ho Hk. split.
  - intros Hv.
    destruct (assertion_line_parts aType key op (String "034" (value +:+ dquote)) "034"
                (value +:+ dquote) Ha Ho Hk eq_refl graphic_quote) as [Hf Hh].
    { apply endsGraphic_cons, endsGraphic_append. now exists EmptyString, "034"%char. }
    unfold parseAssertion.
    change (aType +:+ " " +:+ dquote +:+ key +:+ dquote +:+ " " +:+ op +:+ " "
            +:+ dquote +:+ value +:+ dquote)
      with (aType +:+ String " " (String "034" (key +:+ String "034"
              (String " " (op +:+ String " " (String "034" (value +:+ dquote))))))).
    apply Nat.leb_le in Hf. rewrite Hf, Hh. do 2 f_equal.
    unfold assertValue. change (HasPrefix (String "034" ?x) dquote) with true.
    cbn [drop]. change dquote with (String "034" EmptyString).
    rewrite (Index_at_byte value "034") by exact Hv. apply take_append.
  - intros Hw Hq. pose proof (endsGraphic_word value Hw) as Hend.
    assert (Hg : exists g t, value = String g t /\ graphic g = true).
    { unfold isWord in Hw. destruct value as [|g t]; [discriminate|].
      exists g, t. split; [reflexivity|]. simpl in Hw.
      now apply andb_true_iff in Hw as [? _]. }
    destruct Hg as (g & t & Hval & Hg).
    destruct (assertion_line_parts aType key op value g t Ha Ho Hk Hval Hg Hend) as [Hf Hh].
    unfold parseAssertion.
    change (aType +:+ " " +:+ dquote +:+ key +:+ dquote +:+ " " +:+ op +:+ " " +:+ value)
      with (aType +:+ String " " (String "034" (key +:+ String "034"
              (String " " (op +:+ String " " value))))).
    apply Nat.leb_le in Hf. rewrite Hf, Hh. do 2 f_equal.
    unfold assertValue. now rewrite Hq.
Qed.

(** A line that begins with a word, goes on after a space and ends with
    a graphic byte is its own trimmed text; it is a comment only when the
    word begins with '#', and it is neither empty nor a marker. *)
Lemma word_line_plain (aType tail : string) :
  isWord aType = true -> endsGraphic tail ->
  let line := aType +:+ String " " tail in
  TrimSpace line = line /\
  HasPrefix line "#" = HasPrefix aType "#" /\
  String.eqb line EmptyString = false /\
  String.eqb line "[Captures]" = false /\
  String.eqb line "[Asserts]" = false.
Proof.
  intros Ha Hend line.
  assert (Hidx : Index line " " = Some (len aType)).
  { unfold line. apply (Index_at_byte aType " "), allGraphic_no_byte; [|reflexivity].
    unfold isWord in Ha. now apply andb_true_iff in Ha as [_ ?]. }
  assert (Hne : aType <> EmptyString) by (intros ->; discriminate Ha).
  repeat split.
  - unfold line. destruct aType as [|c a]; [congruence|]. rewrite append_cons.
    apply TrimSpace_keep.
    + unfold isWord in Ha. simpl in Ha. now apply andb_true_iff in Ha as [? _].
    + rewrite <- append_cons. now apply endsGraphic_append, endsGraphic_cons.
  - unfold line. now apply (HasPrefix_append_nonempty aType (String " " tail) "#").
  - apply String.eqb_neq. intros E. rewrite E in Hidx. discriminate Hidx.
  - apply String.eqb_neq. intros E. rewrite E in Hidx. discriminate Hidx.
  - apply String.eqb_neq. intros E. rewrite E in Hidx. discriminate Hidx.
Qed.

Lemma parseLine_assertion (st : parser) (line : string) (a : Assertion) :
  currentSection st = InAsserts ->
  TrimSpace line = line -> HasPrefix line "#" = false ->
  String.eqb line EmptyString = false ->
  String.eqb line "[Captures]" = false -> String.eqb line "[Asserts]" = false ->
  parseAssertion line = Some a ->
  parseLine ParseDuration st line
  = Ok (setReq (fun r => setAsserts (Asserts r ++ [a]) r) st).
Proof.
  intros Hsec Ht Hc He Hm1 Hm2 Ha. unfold parseLine. cbv zeta.
  rewrite Ht, Hsec, Hc, He, Hm1, Hm2. cbn [section_eqb andb]. now rewrite Ha.
Qed.

(** X24: in the Asserts block, a line in the documented format,
    [type "key" op "value"] or [type "key" op value], adds the assertion
    of its four parts: for a type and an operator that are words of
    printable ASCII, the type not beginning with '#' (the line would be a
    comment), a key without a quote, and a value that either has no quote
    and is written between quotes, or is such a word not beginning with
    a quote and is written as it is. *)
Theorem assertion_line_round_trip (st : parser) (aType key op value : string) :
  currentSection st = InAsserts ->
  isWord aType = true -> HasPrefix aType "#" = false ->
  isWord op = true -> Index key dquote = None ->
  (Index value dquote = None ->
   parseLine ParseDuration st
     (aType +:+ " " +:+ dquote +:+ key +:+ dquote +:+ " " +:+ op +:+ " "
      +:+ dquote +:+ value +:+ dquote)
   = Ok (setReq (fun r => setAsserts (Asserts r ++ [mkAssertion aType key op value]) r) st)) /\
  (isWord value = true -> HasPrefix value dquote = false ->
   parseLine ParseDuration st
     (aType +:+ " " +:+ dquote +:+ key +:+ dquote +:+ " " +:+ op +:+ " " +:+ value)
   = Ok (setReq (fun r => setAsserts (Asserts r ++ [mkAssertion aType key op value]) r) st)).
Proof.
  intros Hsec Ha Hhash Ho Hk.
  destruct (parseAssertion_line aType key op value Ha Ho Hk) as [Hquoted Hraw].
  split.
  - intros Hv.
    destruct (word_line_plain aType
                (dquote +:+ key +:+ dquote +:+ " " +:+ op +:+ " " +:+ dquote +:+ value +:+ dquote)
                Ha) as (Ht & Hc & He & Hm1 & Hm2).
    { rewrite <- !append_assoc. apply endsGraphic_append. now exists EmptyString, "034"%char. }
    rewrite Hhash in Hc.
    apply parseLine_assertion; try assumption. now apply Hquoted.
  - intros Hw Hq.
    destruct (word_line_plain aType
                (dquote +:+ key +:+ dquote +:+ " " +:+ op +:+ " " +:+ value) Ha)
      as (Ht & Hc & He & Hm1 & Hm2).
    { rewrite <- !append_assoc. now apply endsGraphic_append, endsGraphic_word. }
    rewrite Hhash in Hc.
    apply parseLine_assertion; try assumption. now apply Hraw.
Qed.

End AssertionFacts.

Lemma assertion_line_round_trip_witness :
  parseLine parseDuration5s (setSection InAsserts initial)
    ("jsonpath" +:+ " " +:+ dquote +:+ "$.user.name" +:+ dquote +:+ " " +:+ "=="
     +:+ " " +:+ dquote +:+ "Ada Lovelace" +:+ dquote)
  = Ok (setReq (fun r => setAsserts
                  (Asserts r ++ [mkAssertion "jsonpath" "$.user.name" "==" "Ada Lovelace"]) r)
               (setSection InAsserts initial)) /\
  parseLine parseDuration5s (setSection InAsserts initial)
    ("jsonpath" +:+ " " +:+ dquote +:+ "$.user.name" +:+ dquote +:+ " " +:+ "=="
     +:+ " " +:+ "42")
  = Ok (setReq (fun r => setAsserts
                  (Asserts r ++ [mkAssertion "jsonpath" "$.user.name" "==" "42"]) r)
               (setSection InAsserts initial)).
Proof.
  split.
  - apply (proj1 (assertion_line_round_trip parseDuration5s (setSection InAsserts initial)
                    "jsonpath" "$.user.name" "==" "Ada Lovelace"
                    eq_refl eq_refl eq_refl eq_refl eq_refl)). reflexivity.
  - apply (proj2 (assertion_line_round_trip parseDuration5s (setSection InAsserts initial)
                    "jsonpath" "$.user.name" "==" "42"
                    eq_refl eq_refl eq_refl eq_refl eq_refl)); reflexivity.
Defined.

(** ** The list of the services and the text without placeholders *)
Section ListingFacts.

Import Proto.

Lemma entry_registered (r : Registry) (entries : list (string * ServiceDescriptor))
    (name : string) (svc : ServiceDescriptor) :
  entries ≡ₚ map_to_list (services r) ->
  In (name, svc) entries <-> services r !! name = Some svc.
Proof.
  intros Hperm. rewrite <- elem_of_map_to_list, <- Hperm. symmetry. apply list_elem_of_In.
Qed.

(** X25: whatever order [range] takes, [ListServices] names every
    registered service once, [FindService] finds exactly the services it
    names, and [FindMethod] finds every method it lists under a service. *)
Theorem ListServices_agrees (r : Registry) (result : list ServiceInfo) :
  ListServicesReturns r result ->
  NoDup (map siFullName result) /\
  (forall name, In name (map siFullName result) <-> exists svc, FindService r name = Ok svc) /\
  (forall info mi, In info result -> In mi (siMethods info) ->
     exists m, FindMethod r (siFullName info) (miName mi) = Ok m /\ mName m = miName mi).
Proof.
  intros (entries & Hperm & ->). repeat split.
  - rewrite map_map. change (map (fun x => siFullName (serviceInfo x)) entries)
      with (entries.*1).
    rewrite Hperm. apply NoDup_fst_map_to_list.
  - intros Hin. apply in_map_iff in Hin as (info & <- & Hin).
    apply in_map_iff in Hin as ([k svc] & <- & Hin).
    apply (entry_registered r _ _ _ Hperm) in Hin. exists svc.
    unfold FindService. simpl. now rewrite Hin.
  - intros (svc & H). unfold FindService in H.
    destruct (services r !! name) as [svc'|] eqn:E; [|discriminate].
    apply (entry_registered r _ _ _ Hperm) in E.
    apply in_map_iff. exists (serviceInfo (name, svc')). split; [reflexivity|].
    now apply in_map.
  - intros info mi Hinfo Hmi.
    apply in_map_iff in Hinfo as ([k svc] & <- & Hin).
    apply (entry_registered r _ _ _ Hperm) in Hin.
    simpl in Hmi. apply in_map_iff in Hmi as (md & <- & Hmd).
    unfold FindMethod, FindService. simpl. rewrite Hin.
    destruct (List.find _ (svcMethods svc)) as [m|] eqn:Hfind.
    + exists m. split; [reflexivity|].
      apply find_some in Hfind as [_ Hm]. now apply String.eqb_eq in Hm.
    + apply (find_none _ _ Hfind) in Hmd. simpl in Hmd.
      now rewrite String.eqb_refl in Hmd.
Qed.

Lemma HasPrefix_append_l (s a b : string) :
  HasPrefix s (a +:+ b) = true -> HasPrefix s a = true.
Proof.
  revert s; induction a as [|c a IH]; intros s; [reflexivity|].
  rewrite append_cons. destruct s as [|d s]; simpl; [discriminate|].
  intros H. apply andb_true_iff in H as [-> H]. now apply IH.
Qed.

Lemma Index_none_longer (s a b : string) : Index s a = None -> Index s (a +:+ b) = None.
Proof.
  induction s as [|c s IH]; simpl.
  - destruct (HasPrefix EmptyString a) eqn:Ha; [discriminate|]. intros _.
    destruct (HasPrefix EmptyString (a +:+ b)) eqn:Hab; [|reflexivity].
    apply HasPrefix_append_l in Hab. congruence.
  - destruct (HasPrefix (String c s) a) eqn:Ha; [discriminate|].
    destruct (Index s a); [discriminate|]. intros _. rewrite IH by reflexivity.
    destruct (HasPrefix (String c s) (a +:+ b)) eqn:Hab; [|reflexivity].
    apply HasPrefix_append_l in Hab. congruence.
Qed.

(** X26: a text without two opening braces in a row is returned as it
    is, whatever the variables and whatever order [range] takes. *)
Theorem Substitute_plain_text (input : string) (variables : gmap string string) :
  Index input "{{" = None ->
  (forall rangeOrder, Substitute rangeOrder input variables = input) /\
  (forall output, SubstituteReturns input variables output -> output = input).
Proof.
  intros Hplain.
  assert (Habsent : forall entries : list (string * string),
             substituteEntries input entries = input).
  { intros entries. apply substituteEntries_absent. intros e _.
    unfold Contains, placeholder. now rewrite Index_none_longer. }
  split.
  - intros rangeOrder. unfold Substitute. destruct (decide _); [reflexivity | apply Habsent].
  - intros output (entries & _ & ->). apply Habsent.
Qed.

End ListingFacts.

Lemma ListServices_agrees_witness :
  NoDup (map Proto.siFullName
           (map Proto.serviceInfo (map_to_list (Proto.services sampleRegistry)))) /\
  In "example.Health"
     (map Proto.siFullName
        (map Proto.serviceInfo (map_to_list (Proto.services sampleRegistry)))).
Proof.
  assert (Hrun : Proto.ListServicesReturns sampleRegistry
                   (map Proto.serviceInfo (map_to_list (Proto.services sampleRegistry)))).
  { exists (map_to_list (Proto.services sampleRegistry)). split; reflexivity. }
  destruct (ListServices_agrees sampleRegistry _ Hrun) as (Hnodup & Hnames & _).
  split; [exact Hnodup|].
  apply (proj2 (Hnames "example.Health")).
  exists (Proto.mkService "example.Health"
            [Proto.mkMethod "Check" "example.Ping" "example.Pong"]).
  vm_compute. reflexivity.
Defined.

Lemma Substitute_plain_text_witness :
  Substitute map_to_list "{ id: 1 }" {["id" := "7"]} = "{ id: 1 }".
Proof.
  apply (proj1 (Substitute_plain_text "{ id: 1 }" {["id" := "7"]} eq_refl)).
Defined.
